(** * Teleoperation panel (src/src/App.jsx): velocity commands, clamping, e-stop

    The panel is one React component.  Its logic is a handful of event
    handlers that read and write a few hooks ([useState] values and
    [useRef] cells) and call [topic.publish] on a rosbridge topic.  The
    embedding below keeps that shape:

    - a JavaScript number is an IEEE 754 binary64 value ([spec_float] with
      precision 53 and maximal exponent 1024), so NaN, the infinities and the
      two zeros are all there;
    - the hooks the handlers touch are the fields of the record [State];
    - a handler is an [Action]: it maps a state to the next state and the
      list of calls it made to the outside ([topic.publish], [setTimeout],
      [ros.close]);
    - the user, the joystick widget, the rosbridge client and the timers
      drive the component through the events of [Event]. *)

From Stdlib Require Import ZArith Bool List String Lia.
From Stdlib Require Import Floats.SpecFloat.
Import ListNotations.

(** ** JavaScript numbers *)

Module Num.

Definition prec : Z := 53.
Definition emax : Z := 1024.

Definition number : Type := spec_float.

Definition NaN : number := S754_nan.
Definition zero : number := S754_zero false.
Definition negzero : number := S754_zero true.

(** The double nearest to an integer, and to a quotient of two integers:
    the value of a decimal literal such as [0.7]. *)
Definition ofZ (n : Z) : number := binary_normalize prec emax n 0 false.
Definition ratio (n d : Z) : number := SFdiv prec emax (ofZ n) (ofZ d).

Definition one : number := Eval vm_compute in ofZ 1.
Definition lit_0_7 : number := Eval vm_compute in ratio 7 10.
Definition lit_0_6 : number := Eval vm_compute in ratio 6 10.
Definition lit_1_2 : number := Eval vm_compute in ratio 12 10.

(** Unary minus and [*]. *)
Definition neg (a : number) : number := SFopp a.
Definition mul (a b : number) : number := SFmul prec emax a b.

(** [<=] and [===] on numbers; both are false on NaN. *)
Definition leb (a b : number) : bool := SFleb a b.
Definition eqb (a b : number) : bool := SFeqb a b.

Definition is_nan (a : number) : bool :=
  match a with S754_nan => true | _ => false end.
Definition is_zero (a : number) : bool :=
  match a with S754_zero _ => true | _ => false end.

(** The order [Math.max] and [Math.min] use: the numeric one, with [-0]
    below [+0]. *)
Definition cmp (a b : number) : option comparison :=
  match a, b with
  | S754_zero true, S754_zero false => Some Lt
  | S754_zero false, S754_zero true => Some Gt
  | _, _ => SFcompare a b
  end.

(** [Math.max(a, b)] and [Math.min(a, b)]: NaN when an argument is NaN. *)
Definition Math_max (a b : number) : number :=
  match cmp a b with
  | None => NaN
  | Some Lt => b
  | Some _ => a
  end.

Definition Math_min (a b : number) : number :=
  match cmp a b with
  | None => NaN
  | Some Gt => b
  | Some _ => a
  end.

(** [a] is below [b] in the order of [cmp]. *)
Definition tle (a b : number) : Prop :=
  cmp a b = Some Lt \/ cmp a b = Some Eq.

(** [lo <= v <= hi]. *)
Definition within (lo hi v : number) : Prop :=
  leb lo v = true /\ leb v hi = true.

End Num.

Import Num.

Declare Scope js_scope.
Delimit Scope js_scope with js.
Notation "a * b" := (mul a b) : js_scope.
Notation "- a" := (neg a) : js_scope.
Local Open Scope js_scope.

(** [const clamp = (v, min, max) => Math.min(max, Math.max(min, v));] *)
Definition clamp (v min max : number) : number :=
  Math_min max (Math_max min v).

(** ** Messages, topics and the component's state *)

(** [{ x, y, z }] *)
Record Vector3 : Type := { x : number; y : number; z : number }.

(** A geometry_msgs/Twist message: [{ linear, angular }]. *)
Record Twist : Type := { linear : Vector3; angular : Vector3 }.

(** [new ROSLIB.Ros({ url })], with the listeners that [connect] registers on
    it.  The "connection" listener closes over the [topicName] of the render
    in which [connect] ran; that captured name is kept with the object. *)
Record Ros : Type := { url : string; captured_topicName : string }.

(** [new ROSLIB.Topic({ ros, name, messageType })] *)
Record Topic : Type := { ros : Ros; name : string; messageType : string }.

(** [axesRef.current]: [{ x, y }]; the fields are [ax] and [ay] here, [x]
    and [y] being the fields of [Vector3]. *)
Record Axes : Type := { ax : number; ay : number }.

Inductive ControlMode : Type := joystick | buttons.

(** The hooks of [App] that the handlers read or write.  Display-only hooks
    ([statusText], [errorText], [showSettings]) and the handles of the
    joystick widget and of the interval ([joystickRef], [joystickZoneRef],
    [timerRef]) are left out. *)
Record State : Type := {
  wsUrl : string;
  topicName : string;
  isConnected : bool;
  linearMax : number;
  angularMax : number;
  estop : bool;
  controlMode : ControlMode;
  rosRef : option Ros;
  cmdVelTopicRef : option Topic;
  axesRef : Axes;
}.

(** What a deferred callback does when its timeout fires. *)
Inductive Callback : Type :=
| cb_publishTwist (linX angZ : number).

(** Calls that leave the component. *)
Inductive Effect : Type :=
| Publish (t : Topic) (msg : Twist)        (* topic.publish(msg) *)
| SetTimeout (cb : Callback) (ms : nat)    (* setTimeout(cb, ms) *)
| Close (r : Ros).                         (* ros.close() *)

(** ** Handlers as state transformers *)

Definition Action : Type := State -> State * list Effect.

Definition skip : Action := fun s => (s, []).
Definition emit (e : Effect) : Action := fun s => (s, [e]).
Definition modify (f : State -> State) : Action := fun s => (f s, []).
Definition seq (a b : Action) : Action :=
  fun s => let (s1, o1) := a s in
           let (s2, o2) := b s1 in
           (s2, o1 ++ o2).
(** Read a hook and continue with its value. *)
Definition read {A : Type} (f : State -> A) (k : A -> Action) : Action :=
  fun s => k (f s) s.

Notation "a ;; b" := (seq a b) (at level 61, right associativity).
Notation "'let*' v := f 'in' k" := (read f (fun v => k))
  (at level 61, v name, right associativity).

Definition next (r : State * list Effect) : State := fst r.
Definition effects (r : State * list Effect) : list Effect := snd r.

(** The messages among the effects of a handler, with their topics. *)
Fixpoint published (es : list Effect) : list (Topic * Twist) :=
  match es with
  | [] => []
  | Publish t m :: es' => (t, m) :: published es'
  | _ :: es' => published es'
  end.

(** The timeouts among the effects of a handler. *)
Fixpoint scheduled (es : list Effect) : list (Callback * nat) :=
  match es with
  | [] => []
  | SetTimeout cb ms :: es' => (cb, ms) :: scheduled es'
  | _ :: es' => scheduled es'
  end.

(** Setters of the hooks. *)
Definition set_topicName (v : string) (s : State) : State :=
  {| wsUrl := wsUrl s; topicName := v; isConnected := isConnected s;
     linearMax := linearMax s; angularMax := angularMax s; estop := estop s;
     controlMode := controlMode s; rosRef := rosRef s;
     cmdVelTopicRef := cmdVelTopicRef s; axesRef := axesRef s |}.
Definition set_wsUrl (v : string) (s : State) : State :=
  {| wsUrl := v; topicName := topicName s; isConnected := isConnected s;
     linearMax := linearMax s; angularMax := angularMax s; estop := estop s;
     controlMode := controlMode s; rosRef := rosRef s;
     cmdVelTopicRef := cmdVelTopicRef s; axesRef := axesRef s |}.
Definition set_isConnected (v : bool) (s : State) : State :=
  {| wsUrl := wsUrl s; topicName := topicName s; isConnected := v;
     linearMax := linearMax s; angularMax := angularMax s; estop := estop s;
     controlMode := controlMode s; rosRef := rosRef s;
     cmdVelTopicRef := cmdVelTopicRef s; axesRef := axesRef s |}.
Definition set_linearMax (v : number) (s : State) : State :=
  {| wsUrl := wsUrl s; topicName := topicName s; isConnected := isConnected s;
     linearMax := v; angularMax := angularMax s; estop := estop s;
     controlMode := controlMode s; rosRef := rosRef s;
     cmdVelTopicRef := cmdVelTopicRef s; axesRef := axesRef s |}.
Definition set_angularMax (v : number) (s : State) : State :=
  {| wsUrl := wsUrl s; topicName := topicName s; isConnected := isConnected s;
     linearMax := linearMax s; angularMax := v; estop := estop s;
     controlMode := controlMode s; rosRef := rosRef s;
     cmdVelTopicRef := cmdVelTopicRef s; axesRef := axesRef s |}.
Definition set_estop (v : bool) (s : State) : State :=
  {| wsUrl := wsUrl s; topicName := topicName s; isConnected := isConnected s;
     linearMax := linearMax s; angularMax := angularMax s; estop := v;
     controlMode := controlMode s; rosRef := rosRef s;
     cmdVelTopicRef := cmdVelTopicRef s; axesRef := axesRef s |}.
Definition set_controlMode (v : ControlMode) (s : State) : State :=
  {| wsUrl := wsUrl s; topicName := topicName s; isConnected := isConnected s;
     linearMax := linearMax s; angularMax := angularMax s; estop := estop s;
     controlMode := v; rosRef := rosRef s;
     cmdVelTopicRef := cmdVelTopicRef s; axesRef := axesRef s |}.
Definition set_rosRef (v : option Ros) (s : State) : State :=
  {| wsUrl := wsUrl s; topicName := topicName s; isConnected := isConnected s;
     linearMax := linearMax s; angularMax := angularMax s; estop := estop s;
     controlMode := controlMode s; rosRef := v;
     cmdVelTopicRef := cmdVelTopicRef s; axesRef := axesRef s |}.
Definition set_cmdVelTopicRef (v : option Topic) (s : State) : State :=
  {| wsUrl := wsUrl s; topicName := topicName s; isConnected := isConnected s;
     linearMax := linearMax s; angularMax := angularMax s; estop := estop s;
     controlMode := controlMode s; rosRef := rosRef s;
     cmdVelTopicRef := v; axesRef := axesRef s |}.
Definition set_axesRef (v : Axes) (s : State) : State :=
  {| wsUrl := wsUrl s; topicName := topicName s; isConnected := isConnected s;
     linearMax := linearMax s; angularMax := angularMax s; estop := estop s;
     controlMode := controlMode s; rosRef := rosRef s;
     cmdVelTopicRef := cmdVelTopicRef s; axesRef := v |}.

(** ** The component *)

Local Open Scope string_scope.

(** [guessWsUrl]: [window.location.hostname || "localhost"], so an empty host
    name falls back to "localhost". *)
Definition guessWsUrl (hostname : string) : string :=
  let host := if String.eqb hostname "" then "localhost" else hostname in
  "ws://" ++ host ++ ":9090".

Local Open Scope list_scope.

Definition noAxes : Axes := {| ax := zero; ay := zero |}.

(** The initial values of the hooks. *)
Definition initial (hostname : string) : State :=
  {| wsUrl := guessWsUrl hostname;
     topicName := "/cmd_vel";
     isConnected := false;
     linearMax := lit_0_6;
     angularMax := lit_1_2;
     estop := false;
     controlMode := joystick;
     rosRef := None;
     cmdVelTopicRef := None;
     axesRef := noAxes |}.

Definition twistTemplate : Twist :=
  {| linear := {| x := zero; y := zero; z := zero |};
     angular := {| x := zero; y := zero; z := zero |} |}.

(** [{ ...t, linear: l, angular: a }] *)
Definition spread_twist (t : Twist) (l a : Vector3) : Twist :=
  let t1 := {| linear := l; angular := angular t |} in
  {| linear := linear t1; angular := a |}.

Definition publishTwist (linX angZ : number) : Action :=
  let* topic := cmdVelTopicRef in
  match topic with
  | None => skip
  | Some t =>
      let msg := spread_twist twistTemplate
                   {| x := linX; y := zero; z := zero |}
                   {| x := zero; y := zero; z := angZ |} in
      emit (Publish t msg)
  end.

Definition safeStop : Action :=
  modify (set_axesRef noAxes) ;;
  publishTwist zero zero ;;
  emit (SetTimeout (cb_publishTwist zero zero) 80) ;;
  emit (SetTimeout (cb_publishTwist zero zero) 160).

(** [disconnect]; clearing the interval is not modelled (see [Tick]), nor is
    an exception out of [ros.close()]. *)
Definition disconnect : Action :=
  modify (set_cmdVelTopicRef None) ;;
  (let* r := rosRef in
   match r with
   | Some ros0 => emit (Close ros0) ;; modify (set_rosRef None)
   | None => skip
   end) ;;
  modify (set_isConnected false).

Definition connect : Action :=
  disconnect ;;
  let* u := wsUrl in
  let* n := topicName in
  modify (set_rosRef (Some {| url := u; captured_topicName := n |})).

(** The three listeners [connect] registers on the [Ros] object [r]. *)
Definition on_connection (r : Ros) : Action :=
  modify (set_isConnected true) ;;
  modify (set_cmdVelTopicRef
            (Some {| ros := r; name := captured_topicName r;
                     messageType := "geometry_msgs/Twist" |})).

Definition on_close : Action :=
  modify (set_isConnected false) ;; safeStop.

Definition on_error : Action :=
  modify (set_isConnected false) ;; safeStop.

(** The listeners on the joystick widget. *)
Definition on_move (vx vy : number) : Action :=
  let x0 := clamp vx (- one) one in
  let y0 := clamp vy (- one) one in
  modify (set_axesRef {| ax := x0; ay := - y0 |}).

Definition on_end : Action :=
  modify (set_axesRef noAxes) ;; publishTwist zero zero.

(** The callback of [setInterval(..., 50)]. *)
Definition interval_ms : nat := 50.

Definition timerCallback : Action :=
  let* connected := isConnected in
  if negb connected then skip
  else
    let* stopped := estop in
    if stopped then publishTwist zero zero
    else
      let* axes := axesRef in
      let* lmax := linearMax in
      let* amax := angularMax in
      let lin := clamp (ay axes * lmax) (- lmax) lmax in
      let ang := clamp (ax axes * amax) (- amax) amax in
      publishTwist lin ang.

(** The effect that depends on [topicName]. *)
Definition topicName_effect : Action :=
  let* connected := isConnected in
  let* r := rosRef in
  match connected, r with
  | true, Some ros0 =>
      (let* n := topicName in
       modify (set_cmdVelTopicRef
                 (Some {| ros := ros0; name := n;
                          messageType := "geometry_msgs/Twist" |}))) ;;
      safeStop
  | _, _ => skip
  end.

(** Typing in the topic field: the effect runs when the name changed. *)
Definition change_topicName (v : string) : Action :=
  let* old := topicName in
  if String.eqb old v then skip
  else modify (set_topicName v) ;; topicName_effect.

(** The eight directional buttons. *)
Inductive Direction : Type :=
| forward_left | forward | forward_right
| left | right
| backward_left | backward | backward_right.

(** What [onPointerDown] of each button stores in [axesRef.current]. *)
Definition direction_axes (d : Direction) : Axes :=
  match d with
  | forward_left => {| ax := - lit_0_7; ay := one |}
  | forward => {| ax := zero; ay := one |}
  | forward_right => {| ax := lit_0_7; ay := one |}
  | left => {| ax := - one; ay := zero |}
  | right => {| ax := one; ay := zero |}
  | backward_left => {| ax := - lit_0_7; ay := - one |}
  | backward => {| ax := zero; ay := - one |}
  | backward_right => {| ax := lit_0_7; ay := - one |}
  end.

Definition onPointerDown (d : Direction) : Action :=
  modify (set_axesRef (direction_axes d)).

Definition onPointerUp (d : Direction) : Action :=
  modify (set_axesRef noAxes) ;; publishTwist zero zero.

Definition onPointerLeave (d : Direction) : Action :=
  modify (set_axesRef noAxes) ;; publishTwist zero zero.

(** The button in the middle of the grid. *)
Definition click_stop : Action :=
  modify (set_axesRef noAxes) ;; publishTwist zero zero.

Definition click_estop : Action :=
  modify (set_estop true) ;; safeStop.

Definition click_estop_release : Action :=
  modify (set_estop false) ;; safeStop.

Definition click_disconnect : Action :=
  disconnect ;; safeStop.

Definition select_buttons : Action :=
  modify (set_controlMode buttons) ;; safeStop.

Definition select_joystick : Action :=
  modify (set_controlMode joystick).

Definition run_callback (cb : Callback) : Action :=
  match cb with
  | cb_publishTwist linX angZ => publishTwist linX angZ
  end.

(** ** Events

    Everything that can run a handler.  The buttons' [disabled] attribute
    and the conditional rendering of the two connection buttons are not
    modelled: a handler may run in any state.  Likewise [Tick] may happen in
    any state, although [disconnect] clears the interval.  The callback of
    the interval closes over [isConnected], [estop], [linearMax] and
    [angularMax] of the render that created it, and React re-creates the
    interval only when it renders again after one of them changed; [Tick]
    reads the hooks of the state it runs in, so a tick that fires between a
    setter call and that render is the tick of the state with the old value
    of the hook ([set_isConnected true s] after a "close" event, say). *)
Inductive Event : Type :=
| ClickConnect
| ClickDisconnect
| RosConnection (r : Ros)
| RosClose
| RosError
| JoystickMove (vx vy : number)
| JoystickEnd
| Tick
| Timeout (cb : Callback)
| ChangeWsUrl (v : string)
| ChangeTopicName (v : string)
| ChangeLinearMax (v : number)
| ChangeAngularMax (v : number)
| SelectJoystick
| SelectButtons
| PointerDown (d : Direction)
| PointerUp (d : Direction)
| PointerLeave (d : Direction)
| ClickStop
| ClickEstop
| ClickEstopRelease.

Definition handle (e : Event) : Action :=
  match e with
  | ClickConnect => connect
  | ClickDisconnect => click_disconnect
  | RosConnection r => on_connection r
  | RosClose => on_close
  | RosError => on_error
  | JoystickMove vx vy => on_move vx vy
  | JoystickEnd => on_end
  | Tick => timerCallback
  | Timeout cb => run_callback cb
  | ChangeWsUrl v => modify (set_wsUrl v)
  | ChangeTopicName v => change_topicName v
  | ChangeLinearMax v => modify (set_linearMax v)
  | ChangeAngularMax v => modify (set_angularMax v)
  | SelectJoystick => select_joystick
  | SelectButtons => select_buttons
  | PointerDown d => onPointerDown d
  | PointerUp d => onPointerUp d
  | PointerLeave d => onPointerLeave d
  | ClickStop => click_stop
  | ClickEstop => click_estop
  | ClickEstopRelease => click_estop_release
  end.

(** A sequence of events, oldest first. *)
Fixpoint run (es : list Event) : Action :=
  match es with
  | [] => skip
  | e :: es' => handle e ;; run es'
  end.

(** The states the component can be in. *)
Inductive reachable (hostname : string) : State -> Prop :=
| reach_initial : reachable hostname (initial hostname)
| reach_step s e :
    reachable hostname s -> reachable hostname (next (handle e s)).

(** ** Predicates of the claims *)

Definition zeroTwist : Twist :=
  {| linear := {| x := zero; y := zero; z := zero |};
     angular := {| x := zero; y := zero; z := zero |} |}.

(** Both components in [[-1, 1]]. *)
Definition axes_in_range (a : Axes) : Prop :=
  within (- one) one (ax a) /\ within (- one) one (ay a).

(** Only [linear.x] and [angular.z] may differ from zero. *)
Definition planar (m : Twist) : Prop :=
  y (linear m) = zero /\ z (linear m) = zero /\
  x (angular m) = zero /\ y (angular m) = zero.


(** The message [publishTwist(linX, angZ)] builds. *)
Definition twist (linX angZ : number) : Twist :=
  {| linear := {| x := linX; y := zero; z := zero |};
     angular := {| x := zero; y := zero; z := angZ |} |}.



(** What the publishing paths send when a topic exists. *)
Definition sent (s : State) (m : Twist) : list Effect :=
  match cmdVelTopicRef s with
  | Some t => [Publish t m]
  | None => []
  end.

(** The two deferred repeats of [safeStop]. *)
Definition repeats : list Effect :=
  [SetTimeout (cb_publishTwist zero zero) 80;
   SetTimeout (cb_publishTwist zero zero) 160].

(** Effects that are not a [topic.publish]. *)
Definition silent (e : Effect) : Prop :=
  match e with Publish _ _ => False | _ => True end.

(** Effects whose message, if any, satisfies [P] on its topic and content. *)
Definition publishing (P : Topic -> Twist -> Prop) (e : Effect) : Prop :=
  match e with Publish t m => P t m | _ => True end.

(** Weakest precondition of an action: the next state satisfies [Q] and
    every effect satisfies [E]. *)
Definition wp (a : Action) (Q : State -> Prop) (E : Effect -> Prop)
  (s : State) : Prop :=
  Q (next (a s)) /\ Forall E (effects (a s)).

(** State invariants used below. *)
Definition connected_has_topic (s : State) : Prop :=
  isConnected s = true -> cmdVelTopicRef s <> None.

Definition never_connected (s : State) : Prop :=
  isConnected s = false /\ cmdVelTopicRef s = None.

Definition topic_is_twist (s : State) : Prop :=
  forall t, cmdVelTopicRef s = Some t ->
            messageType t = "geometry_msgs/Twist".

(** Events that give the joystick handler a NaN component. *)
Definition nan_move (e : Event) : bool :=
  match e with
  | JoystickMove vx vy => is_nan vx || is_nan vy
  | _ => false
  end.

Definition is_connection (e : Event) : bool :=
  match e with RosConnection _ => true | _ => false end.

(** The handlers that stop the robot. *)
Definition stop_path (e : Event) : bool :=
  match e with
  | ClickDisconnect | RosClose | RosError | JoystickEnd | SelectButtons
  | PointerUp _ | PointerLeave _ | ClickStop | ClickEstop
  | ClickEstopRelease => true
  | _ => false
  end.

(** The constants the directional buttons store. *)
Definition button_constants : list number :=
  [zero; lit_0_7; - lit_0_7; one; - one].

(** A session used to run the handlers on concrete states: the operator
    connects, rosbridge answers, the forward-left button is held. *)
Definition demo_ros : Ros :=
  {| url := guessWsUrl "robot"; captured_topicName := "/cmd_vel" |}.

Definition demo_topic : Topic :=
  {| ros := demo_ros; name := "/cmd_vel";
     messageType := "geometry_msgs/Twist" |}.

Definition demo_driving : list Event :=
  [ClickConnect; RosConnection demo_ros; SelectButtons;
   PointerDown forward_left].

Definition demo_stopped : list Event := demo_driving ++ [ClickEstop].

(** ** The status line, the joystick's size, classes of events *)

(** Neither NaN nor an infinity. *)
Definition is_finite (a : number) : bool :=
  match a with S754_zero _ | S754_finite _ _ _ => true | _ => false end.

(** The [statusText] hook: its initial value and what each handler does to
    it.  [disconnect] sets one text, [connect] overwrites it at once; the
    three listeners on the [Ros] object set one each. *)
Definition initialStatus : string := "Bağlı değil".

Definition disconnect_status (old : string) : string := "Bağlı değil".

Definition connect_status (old : string) : string :=
  let st := disconnect_status old in "Bağlanıyor...".

Definition statusText_after (e : Event) (old : string) : string :=
  match e with
  | ClickConnect => connect_status old
  | ClickDisconnect => disconnect_status old
  | RosConnection _ => "Bağlandı"
  | RosClose => "Bağlantı kapandı"
  | RosError => "Bağlantı hatası"
  | _ => old
  end.

Fixpoint statusText_run (es : list Event) (old : string) : string :=
  match es with
  | [] => old
  | e :: es' => statusText_run es' (statusText_after e old)
  end.

(** The size handed to the joystick widget, from the zone's rectangle:
    [w = Math.max(1, rect.width)], [h = Math.max(1, rect.height)],
    [size = Math.min(w, h) * 0.7]. *)
Definition joystick_side (width height : number) : number :=
  let w := Math_max one width in
  let h := Math_max one height in
  Math_min w h.

Definition joystick_size (width height : number) : number :=
  joystick_side width height * lit_0_7.

(** A timeout event whose callback is one [safeStop] scheduled. *)
Definition safeStop_timeout (e : Event) : Prop :=
  match e with
  | Timeout cb => cb = cb_publishTwist zero zero
  | _ => True
  end.

Definition is_release (e : Event) : bool :=
  match e with ClickEstopRelease => true | _ => false end.

(** Timer events: the interval and the deferred callbacks. *)
Definition timer_event (e : Event) : bool :=
  match e with Tick | Timeout _ => true | _ => false end.

(** Events of the joystick, the button grid and the timers. *)
Definition input_event (e : Event) : bool :=
  match e with
  | JoystickMove _ _ | JoystickEnd | PointerDown _ | PointerUp _
  | PointerLeave _ | ClickStop | Tick | Timeout _ => true
  | _ => false
  end.

(** A timeout set by [safeStop]: [publishTwist(0, 0)] after 80 or 160 ms. *)
Definition safeStop_repeat (e : Effect) : Prop :=
  match e with
  | SetTimeout cb ms => cb = cb_publishTwist zero zero /\ (ms = 80 \/ ms = 160)
  | _ => True
  end.

(** The axes mirrored through the origin. *)
Definition mirror (a : Axes) : Axes := {| ax := - ax a; ay := - ay a |}.

(** [r] is [v] brought into [[lo, hi]]: it lies between the bounds, equals
    [v] when [v] does, and is the bound that [v] is beyond otherwise. *)
Definition brought_into (lo hi v r : number) : Prop :=
  within lo hi r /\
  (within lo hi v -> eqb r v = true) /\
  (leb hi v = true -> eqb r hi = true) /\
  (leb v lo = true -> eqb r lo = true).

(** A session with a negative [linearMax] typed into the settings. *)
Definition demo_negative_max : list Event :=
  [ClickConnect; RosConnection demo_ros; ChangeLinearMax (- lit_0_6)].

(** * Numbers: the order behind [Math.max] and [Math.min] *)

Lemma cmp_nan a b :
  cmp a b = None <-> is_nan a = true \/ is_nan b = true.
Proof.
  destruct a as [[|]| [|] | |[|] ma ea], b as [[|]| [|] | |[|] mb eb];
    cbn; split; intros H; try discriminate; auto;
    destruct H; discriminate.
Qed.

Lemma cmp_refl a : is_nan a = false -> cmp a a = Some Eq.
Proof.
  destruct a as [[|]| [|] | |[|] m e]; cbn; intros H;
    try reflexivity; try discriminate;
    rewrite Z.compare_refl;
    change (Pos.compare_cont Eq m m) with (Pos.compare m m);
    rewrite Pos.compare_refl; reflexivity.
Qed.

Lemma cmp_eq a b : cmp a b = Some Eq -> a = b.
Proof.
  destruct a as [[|]| [|] | |[|] ma ea], b as [[|]| [|] | |[|] mb eb];
    cbn; intros H; try discriminate; try reflexivity.
  all: destruct (Z.compare ea eb) eqn:He; try discriminate.
  all: apply Z.compare_eq in He; subst eb.
  all: change (Pos.compare_cont Eq ma mb) with (Pos.compare ma mb) in H.
  all: destruct (Pos.compare ma mb) eqn:Hm; try discriminate.
  all: apply Pos.compare_eq in Hm; subst mb; reflexivity.
Qed.

Lemma cmp_antisym a b : cmp b a = option_map CompOpp (cmp a b).
Proof.
  destruct a as [[|]| [|] | |[|] ma ea], b as [[|]| [|] | |[|] mb eb];
    cbn; try reflexivity.
  all: rewrite (Z.compare_antisym ea eb).
  all: change (Pos.compare_cont Eq mb ma) with (Pos.compare mb ma).
  all: change (Pos.compare_cont Eq ma mb) with (Pos.compare ma mb).
  all: rewrite (Pos.compare_antisym ma mb).
  all: destruct (Z.compare ea eb); cbn; try reflexivity.
  all: destruct (Pos.compare ma mb); reflexivity.
Qed.

Lemma cmp_total a b :
  is_nan a = false -> is_nan b = false -> exists c, cmp a b = Some c.
Proof.
  intros Ha Hb. destruct (cmp a b) as [c|] eqn:E; [now exists c|].
  apply cmp_nan in E. destruct E; congruence.
Qed.

Lemma leb_not_nan a b :
  leb a b = true -> is_nan a = false /\ is_nan b = false.
Proof.
  destruct a as [[|]| [|] | |[|] ma ea], b as [[|]| [|] | |[|] mb eb];
    cbn; intros H; try discriminate; auto.
Qed.

(** [cmp] refines the numeric order: it only adds [-0 < +0]. *)
Lemma cmp_SFcompare a b :
  cmp a b = SFcompare a b \/
  (is_zero a = true /\ is_zero b = true /\ SFcompare a b = Some Eq).
Proof.
  destruct a as [[|]| [|] | |[|] ma ea], b as [[|]| [|] | |[|] mb eb];
    cbn; auto.
Qed.

Lemma cmp_Lt_leb a b : cmp a b = Some Lt -> leb a b = true.
Proof.
  unfold leb, SFleb. destruct (cmp_SFcompare a b) as [E|(_ & _ & E)].
  - rewrite <- E. now intros ->.
  - now rewrite E.
Qed.

Lemma cmp_Eq_leb a b : cmp a b = Some Eq -> leb a b = true.
Proof.
  unfold leb, SFleb. destruct (cmp_SFcompare a b) as [E|(_ & _ & E)].
  - rewrite <- E. now intros ->.
  - now rewrite E.
Qed.

Lemma cmp_Gt_leb a b : cmp a b = Some Gt -> leb b a = true.
Proof.
  intros H. apply cmp_Lt_leb. rewrite cmp_antisym, H. reflexivity.
Qed.

Lemma leb_refl a : is_nan a = false -> leb a a = true.
Proof. intros H. apply cmp_Eq_leb, cmp_refl, H. Qed.

(** Numerically ordered values are ordered by [cmp] too, unless they are
    [+0] and [-0] in this order. *)
Lemma leb_cmp a b :
  leb a b = true ->
  cmp a b = Some Lt \/ cmp a b = Some Eq \/ (a = zero /\ b = negzero).
Proof.
  unfold leb, SFleb.
  destruct a as [[|]| [|] | |[|] ma ea], b as [[|]| [|] | |[|] mb eb];
    cbn; auto; try discriminate.
  all: destruct (Z.compare ea eb); cbn; auto; try discriminate.
  all: destruct (Pos.compare_cont Eq ma mb); cbn; auto; discriminate.
Qed.

(** [Math.max] and [Math.min] pick one of their arguments. *)
Lemma Math_max_cases a b :
  is_nan a = false -> is_nan b = false ->
  (Math_max a b = a /\ leb b a = true) \/
  (Math_max a b = b /\ cmp a b = Some Lt).
Proof.
  intros Ha Hb. unfold Math_max.
  destruct (cmp_total a b Ha Hb) as [c E]. rewrite E.
  destruct c; [left|right|left]; split; auto.
  - apply cmp_eq in E. subst b. now apply leb_refl.
  - now apply cmp_Gt_leb.
Qed.

Lemma Math_min_cases a b :
  is_nan a = false -> is_nan b = false ->
  (Math_min a b = a /\ leb a b = true) \/
  (Math_min a b = b /\ cmp a b = Some Gt).
Proof.
  intros Ha Hb. unfold Math_min.
  destruct (cmp_total a b Ha Hb) as [c E]. rewrite E.
  destruct c; [left|left|right]; split; auto.
  - now apply cmp_Eq_leb.
  - now apply cmp_Lt_leb.
Qed.

Lemma Math_max_nan_r a : Math_max a NaN = NaN.
Proof. now destruct a as [[|]| [|] | |[|] ma ea]. Qed.

Lemma Math_min_nan_r a : Math_min a NaN = NaN.
Proof. now destruct a as [[|]| [|] | |[|] ma ea]. Qed.

Lemma clamp_nan lo hi : clamp NaN lo hi = NaN.
Proof. unfold clamp. now rewrite Math_max_nan_r, Math_min_nan_r. Qed.

(** On arguments that are not NaN, [clamp] lands between its bounds. *)
Lemma clamp_within v lo hi :
  leb lo hi = true -> is_nan v = false -> within lo hi (clamp v lo hi).
Proof.
  intros Hb Hv. destruct (leb_not_nan _ _ Hb) as [Hlo Hhi].
  unfold clamp, within.
  destruct (Math_max_cases lo v Hlo Hv) as [[-> Hle]|[-> Hlt]].
  - destruct (Math_min_cases hi lo Hhi Hlo) as [[-> _]|[-> Hgt]].
    + split; [exact Hb | now apply leb_refl].
    + split; [now apply leb_refl | exact Hb].
  - destruct (Math_min_cases hi v Hhi Hv) as [[-> _]|[-> Hgt]].
    + split; [exact Hb | now apply leb_refl].
    + split; [now apply cmp_Lt_leb | now apply cmp_Gt_leb].
Qed.

Lemma tle_not_nan a b : tle a b -> is_nan a = false /\ is_nan b = false.
Proof.
  intros H.
  destruct (is_nan a) eqn:Ha, (is_nan b) eqn:Hb; auto;
    assert (E : cmp a b = None) by (apply cmp_nan; auto);
    destruct H as [H|H]; congruence.
Qed.

Lemma tle_refl a : is_nan a = false -> tle a a.
Proof. intros H. right. now apply cmp_refl. Qed.

Lemma tle_leb a b : tle a b -> leb a b = true.
Proof. intros [H|H]; [now apply cmp_Lt_leb | now apply cmp_Eq_leb]. Qed.

Lemma leb_tle a b :
  leb a b = true -> tle a b \/ (a = zero /\ b = negzero).
Proof. intros H. unfold tle. destruct (leb_cmp _ _ H) as [?|[?|?]]; auto. Qed.

Lemma Math_max_absorb a b : tle a b -> Math_max a b = b.
Proof.
  unfold Math_max. intros [H|H]; rewrite H; [reflexivity|].
  now apply cmp_eq in H.
Qed.

Lemma Math_min_absorb a b : tle b a -> Math_min a b = b.
Proof.
  unfold Math_min. intros [H|H]; rewrite cmp_antisym, H; cbn; [reflexivity|].
  now apply cmp_eq in H.
Qed.

(** Inside the bounds, in the order of [cmp], [clamp] changes nothing. *)
Lemma clamp_fix v lo hi : tle lo v -> tle v hi -> clamp v lo hi = v.
Proof.
  intros H1 H2. unfold clamp.
  rewrite (Math_max_absorb _ _ H1). now apply Math_min_absorb.
Qed.

Lemma clamp_tle v lo hi :
  tle lo hi -> is_nan v = false ->
  tle lo (clamp v lo hi) /\ tle (clamp v lo hi) hi.
Proof.
  intros Hb Hv. destruct (tle_not_nan _ _ Hb) as [Hlo Hhi]. unfold clamp.
  assert (Ha : exists a, Math_max lo v = a /\ tle lo a).
  { unfold Math_max. destruct (cmp_total lo v Hlo Hv) as [c E]. rewrite E.
    destruct c; eexists; split; try reflexivity;
      [now apply tle_refl | now left | now apply tle_refl]. }
  destruct Ha as (a & -> & Hla).
  destruct (tle_not_nan _ _ Hla) as [_ Hna].
  unfold Math_min. destruct (cmp_total hi a Hhi Hna) as [c E]. rewrite E.
  destruct c.
  - split; [exact Hb | now apply tle_refl].
  - split; [exact Hb | now apply tle_refl].
  - split; [exact Hla | left]. rewrite cmp_antisym, E. reflexivity.
Qed.

(** With [+0] as lower and [-0] as upper bound, [clamp] is constant. *)
Lemma clamp_zero_negzero v :
  is_nan v = false -> clamp v zero negzero = negzero.
Proof. now destruct v as [[|]| [|] | |[|] m e]. Qed.

Lemma clamp_idempotent v lo hi :
  leb lo hi = true ->
  clamp (clamp v lo hi) lo hi = clamp v lo hi.
Proof.
  intros Hb. destruct (is_nan v) eqn:Hv.
  { destruct v; try discriminate. fold NaN. now rewrite !clamp_nan. }
  destruct (leb_tle _ _ Hb) as [Ht|[-> ->]].
  - destruct (clamp_tle v _ _ Ht Hv) as [H1 H2]. now apply clamp_fix.
  - rewrite (clamp_zero_negzero _ Hv). reflexivity.
Qed.

Lemma eqb_refl a : is_nan a = false -> eqb a a = true.
Proof.
  intros H. unfold eqb, SFeqb.
  destruct (cmp_SFcompare a a) as [E|(_ & _ & E)];
    [rewrite <- E, (cmp_refl _ H) | rewrite E]; reflexivity.
Qed.

Lemma eqb_zeros a b : is_zero a = true -> is_zero b = true -> eqb a b = true.
Proof. destruct a, b; cbn; intros; try discriminate; reflexivity. Qed.

(** A value between the bounds comes back as it is; only a zero may come
    back as the other zero, when a bound is that other zero. *)
Lemma clamp_unchanged v lo hi :
  within lo hi v ->
  clamp v lo hi = v \/
  (is_zero v = true /\ is_zero (clamp v lo hi) = true).
Proof.
  intros [H1 H2].
  destruct (leb_tle _ _ H1) as [T1|[-> ->]];
    destruct (leb_tle _ _ H2) as [T2|[Ev ->]].
  - left. now apply clamp_fix.
  - right. subst v. split; [reflexivity|].
    destruct T1 as [E|E].
    + unfold clamp. rewrite (Math_max_absorb _ _ (or_introl E)). reflexivity.
    + apply cmp_eq in E. subst lo. reflexivity.
  - right. split; [reflexivity|].
    destruct hi as [[|]| [|] | |[|] m e]; try reflexivity;
      destruct T2 as [E|E]; discriminate.
  - discriminate.
Qed.

(** Unary minus reverses the numeric order. *)
Lemma leb_neg a b : leb (- a) (- b) = leb b a.
Proof.
  unfold leb, SFleb.
  destruct a as [[|]| [|] | |[|] ma ea], b as [[|]| [|] | |[|] mb eb];
    cbn; try reflexivity.
  all: rewrite (Z.compare_antisym ea eb).
  all: change (Pos.compare_cont Eq mb ma) with (Pos.compare mb ma).
  all: change (Pos.compare_cont Eq ma mb) with (Pos.compare ma mb).
  all: rewrite (Pos.compare_antisym ma mb).
  all: destruct (Z.compare ea eb); cbn; try reflexivity.
  all: destruct (Pos.compare ma mb); reflexivity.
Qed.

Lemma neg_involutive a : - (- a) = a.
Proof. destruct a as [[|]| [|] | |[|] m e]; reflexivity. Qed.

Lemma eqb_neg a b : eqb (- a) (- b) = eqb a b.
Proof.
  unfold eqb, SFeqb.
  destruct a as [[|]| [|] | |[|] ma ea], b as [[|]| [|] | |[|] mb eb];
    cbn; try reflexivity.
  all: destruct (Z.compare ea eb); cbn; try reflexivity.
  all: destruct (Pos.compare_cont Eq ma mb); reflexivity.
Qed.

(** A value between the bounds comes back equal under [===]. *)
Lemma clamp_eqb v lo hi : within lo hi v -> eqb (clamp v lo hi) v = true.
Proof.
  intros Hw. destruct (clamp_unchanged v lo hi Hw) as [E|[Hz Hz']].
  - rewrite E. apply eqb_refl. destruct Hw as [H _].
    now destruct (leb_not_nan _ _ H).
  - now apply eqb_zeros.
Qed.

(** [[-b, b]] is closed under unary minus. *)
Lemma within_neg b v : within (- b) b v -> within (- b) b (- v).
Proof.
  intros [H1 H2]. split.
  - now rewrite leb_neg.
  - rewrite <- (neg_involutive b) at 1. now rewrite leb_neg.
Qed.

(** * More on numbers: transitivity, monotonicity, symmetry *)

Lemma SFcompare_trans a b c x y :
  SFcompare a b = Some x -> SFcompare b c = Some y ->
  x <> Gt -> y <> Gt ->
  exists r, SFcompare a c = Some r /\ r <> Gt.
Proof.
  destruct a as [[|]| [|] | |[|] ma ea], b as [[|]| [|] | |[|] mb eb],
           c as [[|]| [|] | |[|] mc ec]; cbn;
    intros H1 H2 Hx Hy;
    try discriminate;
    try (injection H1 as <-); try (injection H2 as <-);
    try congruence;
    try (eexists; split; [reflexivity|discriminate]).
  all: change (Pos.compare_cont Eq ?p ?q) with (Pos.compare p q) in *.
  all: eexists; split; [reflexivity|].
  all: destruct (Z.compare_spec ea eb), (Z.compare_spec eb ec),
         (Z.compare_spec ea ec); try congruence; try lia; subst.
  all: destruct (Pos.compare_spec ma mb), (Pos.compare_spec mb mc),
         (Pos.compare_spec ma mc); cbn in *; try congruence; try lia.
Qed.

Lemma leb_trans a b c : leb a b = true -> leb b c = true -> leb a c = true.
Proof.
  unfold leb, SFleb. intros H1 H2.
  destruct (SFcompare a b) as [x|] eqn:E1; [|discriminate].
  destruct (SFcompare b c) as [y|] eqn:E2; [|discriminate].
  destruct (SFcompare_trans a b c x y E1 E2) as (r & -> & Hr).
  - now destruct x.
  - now destruct y.
  - now destruct r.
Qed.

Lemma cmp_lt_trans a b c :
  cmp a b = Some Lt -> cmp b c = Some Lt -> cmp a c = Some Lt.
Proof.
  destruct a as [[|]| [|] | |[|] ma ea], b as [[|]| [|] | |[|] mb eb],
           c as [[|]| [|] | |[|] mc ec]; cbn;
    intros H1 H2; try discriminate; try reflexivity.
  all: change (Pos.compare_cont Eq ?p ?q) with (Pos.compare p q) in *.
  all: f_equal.
  all: destruct (Z.compare_spec ea eb), (Z.compare_spec eb ec),
         (Z.compare_spec ea ec); try congruence; try lia; subst.
  all: destruct (Pos.compare_spec ma mb), (Pos.compare_spec mb mc),
         (Pos.compare_spec ma mc); cbn in *; try congruence; try lia.
Qed.

Lemma Math_max_not_nan a b :
  is_nan a = false -> is_nan b = false -> is_nan (Math_max a b) = false.
Proof.
  intros Ha Hb. now destruct (Math_max_cases a b Ha Hb) as [[-> _]|[-> _]].
Qed.

Lemma Math_min_not_nan a b :
  is_nan a = false -> is_nan b = false -> is_nan (Math_min a b) = false.
Proof.
  intros Ha Hb. now destruct (Math_min_cases a b Ha Hb) as [[-> _]|[-> _]].
Qed.

Lemma Math_max_mono lo v w :
  is_nan lo = false -> leb v w = true ->
  leb (Math_max lo v) (Math_max lo w) = true.
Proof.
  intros Hlo H. destruct (leb_not_nan _ _ H) as [Hv Hw].
  destruct (Math_max_cases lo v Hlo Hv) as [[-> H1]|[-> H1]],
           (Math_max_cases lo w Hlo Hw) as [[-> H2]|[-> H2]].
  - now apply leb_refl.
  - now apply cmp_Lt_leb.
  - now apply leb_trans with w.
  - exact H.
Qed.

Lemma Math_min_mono hi v w :
  is_nan hi = false -> leb v w = true ->
  leb (Math_min hi v) (Math_min hi w) = true.
Proof.
  intros Hhi H. destruct (leb_not_nan _ _ H) as [Hv Hw].
  destruct (Math_min_cases hi v Hhi Hv) as [[-> H1]|[-> H1]],
           (Math_min_cases hi w Hhi Hw) as [[-> H2]|[-> H2]].
  - now apply leb_refl.
  - now apply leb_trans with v.
  - now apply cmp_Gt_leb.
  - exact H.
Qed.

Lemma cmp_neg a b : cmp (- a) (- b) = cmp b a.
Proof.
  destruct a as [[|]| [|] | |[|] ma ea], b as [[|]| [|] | |[|] mb eb];
    cbn; try reflexivity.
  all: rewrite (Z.compare_antisym ea eb).
  all: change (Pos.compare_cont Eq ?p ?q) with (Pos.compare p q).
  all: rewrite (Pos.compare_antisym ma mb).
  all: destruct (Z.compare ea eb); cbn; try reflexivity.
  all: destruct (Pos.compare ma mb); reflexivity.
Qed.

Lemma neg_Math_max a b : - Math_max a b = Math_min (- a) (- b).
Proof.
  unfold Math_max, Math_min. rewrite cmp_neg, (cmp_antisym a b).
  now destruct (cmp a b) as [[| |]|].
Qed.

Lemma neg_Math_min a b : - Math_min a b = Math_max (- a) (- b).
Proof.
  unfold Math_max, Math_min. rewrite cmp_neg, (cmp_antisym a b).
  now destruct (cmp a b) as [[| |]|].
Qed.

(** With ordered bounds the two halves of [clamp] commute. *)
Lemma clamp_max_min v lo hi :
  tle lo hi -> Math_max lo (Math_min hi v) = Math_min hi (Math_max lo v).
Proof.
  intros Hb. destruct (tle_not_nan _ _ Hb) as [Hlo Hhi].
  destruct (is_nan v) eqn:Hv.
  { destruct v; try discriminate. fold NaN.
    now rewrite Math_min_nan_r, !Math_max_nan_r, Math_min_nan_r. }
  destruct (cmp_total hi v Hhi Hv) as [c E].
  assert (Hcases : tle v hi \/ cmp hi v = Some Lt).
  { destruct c; [left; right|now right|left; left];
      rewrite cmp_antisym, E; reflexivity. }
  destruct Hcases as [Hle|Hlt].
  - rewrite (Math_min_absorb hi v Hle).
    symmetry. apply Math_min_absorb.
    unfold Math_max. destruct (cmp_total lo v Hlo Hv) as [c' E']. rewrite E'.
    destruct c'; assumption.
  - assert (Hmin : Math_min hi v = hi).
    { unfold Math_min. now rewrite Hlt. }
    rewrite Hmin, (Math_max_absorb lo hi Hb).
    assert (Hlv : cmp lo v = Some Lt).
    { destruct Hb as [Hb|Hb]; [now apply cmp_lt_trans with hi|].
      apply cmp_eq in Hb. now subst. }
    rewrite (Math_max_absorb lo v (or_introl Hlv)). now rewrite Hmin.
Qed.

Lemma tle_neg_bound b : leb zero b = true -> b <> negzero -> tle (- b) b.
Proof.
  destruct b as [[|]| [|] | |[|] m e]; cbn; intros H Hn;
    try discriminate; try congruence; now left.
Qed.

(** Symmetric bounds: clamping the negation negates the result. *)
Lemma clamp_neg v b :
  leb zero b = true -> b <> negzero ->
  clamp (- v) (- b) b = - clamp v (- b) b.
Proof.
  intros Hb Hn. unfold clamp.
  rewrite neg_Math_min, neg_Math_max, neg_involutive.
  symmetry. apply clamp_max_min. now apply tle_neg_bound.
Qed.

(** X10.  [clamp] is monotone: with bounds that are numbers, a larger input
    never gives a smaller result. *)
Theorem clamp_mono v w lo hi :
  is_nan lo = false -> is_nan hi = false -> leb v w = true ->
  leb (clamp v lo hi) (clamp w lo hi) = true.
Proof.
  intros Hlo Hhi H. unfold clamp.
  apply Math_min_mono; [exact Hhi|]. now apply Math_max_mono.
Qed.

Lemma binary_round_aux_neg s m e l :
  SFopp (binary_round_aux prec emax s m e l) =
  binary_round_aux prec emax (negb s) m e l.
Proof.
  unfold binary_round_aux.
  destruct (shr_fexp prec emax m e l) as [mrs' e'].
  destruct (shr_fexp prec emax _ e' loc_Exact) as [mrs'' e''].
  destruct (shr_m mrs''); try reflexivity.
  now destruct (Z.leb e'' (emax - prec)).
Qed.

Lemma mul_neg_l a b : (- a) * b = - (a * b).
Proof.
  destruct a as [[|]| [|] | |[|] ma ea], b as [[|]| [|] | |[|] mb eb];
    try reflexivity; unfold mul, neg; cbn [SFmul SFopp];
    now rewrite binary_round_aux_neg.
Qed.

(** At rest: zero times a finite gain that is not negative clamps to zero. *)
Lemma clamp_rest g :
  leb zero g = true -> is_finite g = true ->
  is_zero (clamp (zero * g) (- g) g) = true.
Proof.
  destruct g as [[|]| [|] | |[|] m e]; cbn; intros H1 H2;
    try discriminate; reflexivity.
Qed.

(** A negative upper bound with its negation as lower bound: the bounds are
    swapped and [clamp] returns the upper bound. *)
Lemma clamp_swapped v g :
  leb g zero = true -> is_zero g = false -> is_nan v = false ->
  clamp v (- g) g = g.
Proof.
  intros Hg Hz Hv.
  assert (Hn : is_nan g = false) by now destruct (leb_not_nan _ _ Hg).
  assert (Hlt : cmp g (- g) = Some Lt).
  { destruct g as [[|]| [|] | |[|] m e]; try discriminate; reflexivity. }
  assert (Hng : is_nan (- g) = false) by now destruct g.
  unfold clamp.
  destruct (Math_max_cases (- g) v Hng Hv) as [[-> _]|[-> H]].
  - unfold Math_min. now rewrite Hlt.
  - unfold Math_min. now rewrite (cmp_lt_trans _ _ _ Hlt H).
Qed.

(** * Saturation: what [clamp] does outside its bounds *)

Lemma SFcompare_antisym a b :
  SFcompare b a = option_map CompOpp (SFcompare a b).
Proof.
  destruct a as [[|]| [|] | |[|] ma ea], b as [[|]| [|] | |[|] mb eb];
    cbn; try reflexivity.
  all: rewrite (Z.compare_antisym ea eb).
  all: change (Pos.compare_cont Eq ?p ?q) with (Pos.compare p q).
  all: rewrite (Pos.compare_antisym ma mb).
  all: destruct (Z.compare ea eb); cbn; try reflexivity.
  all: destruct (Pos.compare ma mb); reflexivity.
Qed.

Lemma leb_antisym a b : leb a b = true -> leb b a = true -> eqb a b = true.
Proof.
  unfold leb, eqb, SFleb, SFeqb. rewrite (SFcompare_antisym a b).
  now destruct (SFcompare a b) as [[| |]|].
Qed.

(** [===] is identity, except between the two zeros. *)
Lemma eqb_eq a b : eqb a b = true -> is_zero b = false -> a = b.
Proof.
  unfold eqb, SFeqb. intros H Hz. apply cmp_eq.
  destruct (cmp_SFcompare a b) as [E|(_ & Hb & _)]; [|congruence].
  rewrite E. now destruct (SFcompare a b) as [[| |]|].
Qed.

Lemma leb_Math_max_r lo v :
  is_nan lo = false -> is_nan v = false -> leb v (Math_max lo v) = true.
Proof.
  intros Hlo Hv. destruct (Math_max_cases lo v Hlo Hv) as [[-> H]|[-> _]].
  - exact H.
  - now apply leb_refl.
Qed.

Lemma leb_Math_min_r hi v :
  is_nan hi = false -> is_nan v = false -> leb (Math_min hi v) v = true.
Proof.
  intros Hhi Hv. destruct (Math_min_cases hi v Hhi Hv) as [[-> H]|[-> _]].
  - exact H.
  - now apply leb_refl.
Qed.

(** At or above the upper bound, [clamp] gives the upper bound. *)
Lemma clamp_saturates_above v lo hi :
  leb lo hi = true -> leb hi v = true -> eqb (clamp v lo hi) hi = true.
Proof.
  intros Hb Hv.
  destruct (leb_not_nan _ _ Hb) as [Hlo Hhi].
  destruct (leb_not_nan _ _ Hv) as [_ Hnv].
  destruct (clamp_within v lo hi Hb Hnv) as [_ Hle].
  apply leb_antisym; [exact Hle|].
  unfold clamp.
  assert (Ha : leb hi (Math_max lo v) = true).
  { apply leb_trans with v; [exact Hv | now apply leb_Math_max_r]. }
  destruct (Math_min_cases hi (Math_max lo v) Hhi
              (Math_max_not_nan _ _ Hlo Hnv)) as [[-> _]|[-> _]].
  - now apply leb_refl.
  - exact Ha.
Qed.

(** At or below the lower bound, [clamp] gives the lower bound. *)
Lemma clamp_saturates_below v lo hi :
  leb lo hi = true -> leb v lo = true -> eqb (clamp v lo hi) lo = true.
Proof.
  intros Hb Hv.
  destruct (leb_not_nan _ _ Hb) as [Hlo Hhi].
  destruct (leb_not_nan _ _ Hv) as [Hnv _].
  destruct (clamp_within v lo hi Hb Hnv) as [Hge _].
  apply leb_antisym; [|exact Hge].
  unfold clamp.
  assert (Ha : leb (Math_max lo v) lo = true).
  { destruct (Math_max_cases lo v Hlo Hnv) as [[-> _]|[-> _]].
    - now apply leb_refl.
    - exact Hv. }
  apply leb_trans with (Math_max lo v); [|exact Ha].
  apply leb_Math_min_r; [exact Hhi | now apply Math_max_not_nan].
Qed.

Lemma clamp_brought_into v lo hi :
  leb lo hi = true -> is_nan v = false ->
  brought_into lo hi v (clamp v lo hi).
Proof.
  intros Hb Hv. split; [now apply clamp_within|]. split; [|split].
  - apply clamp_eqb.
  - now apply clamp_saturates_above.
  - now apply clamp_saturates_below.
Qed.

(** * Actions: sequencing and weakest preconditions *)

Lemma seq_next a b s : next ((a ;; b) s) = next (b (next (a s))).
Proof. unfold seq, next. destruct (a s) as [s1 o1]; cbn. now destruct (b s1). Qed.

Lemma seq_effects a b s :
  effects ((a ;; b) s) = effects (a s) ++ effects (b (next (a s))).
Proof. unfold seq, effects, next. destruct (a s) as [s1 o1]; cbn. now destruct (b s1). Qed.

Lemma wp_skip Q E s : wp skip Q E s <-> Q s.
Proof. unfold wp; cbn. intuition. Qed.

Lemma wp_modify f Q E s : wp (modify f) Q E s <-> Q (f s).
Proof. unfold wp; cbn. intuition. Qed.

Lemma wp_emit e Q E s : wp (emit e) Q E s <-> Q s /\ E e.
Proof.
  unfold wp; cbn. split.
  - intros [H1 H2]. inversion H2; auto.
  - intros [H1 H2]. auto.
Qed.

Lemma wp_read {A} (f : State -> A) k Q E s :
  wp (read f k) Q E s <-> wp (k (f s)) Q E s.
Proof. reflexivity. Qed.

Lemma wp_seq a b Q E s :
  wp (a ;; b) Q E s <-> wp a (wp b Q E) E s.
Proof.
  unfold wp. rewrite seq_next, seq_effects, Forall_app. tauto.
Qed.

Lemma wp_mono a (Q Q' : State -> Prop) E s :
  (forall s', Q s' -> Q' s') -> wp a Q E s -> wp a Q' E s.
Proof. unfold wp. intros H [H1 H2]. auto. Qed.

(** Unfold the handlers down to the combinators. *)
Ltac unfold_handlers :=
  unfold handle, click_disconnect, connect, disconnect, on_connection,
    on_close, on_error, on_move, on_end, timerCallback, run_callback,
    change_topicName, topicName_effect, select_joystick, select_buttons,
    onPointerDown, onPointerUp, onPointerLeave, click_stop, click_estop,
    click_estop_release, safeStop, publishTwist in *.

(** Symbolic execution of a handler under [wp]: one combinator at a time;
    an emitted effect leaves its side condition as a goal. *)
Ltac wp_step :=
  lazymatch goal with
  | |- wp (_ ;; _) _ _ _ => apply wp_seq
  | |- wp (read _ _) _ _ _ => apply wp_read; cbv beta
  | |- wp (modify _) _ _ _ => apply wp_modify
  | |- wp (emit _) _ _ _ => apply wp_emit; split
  | |- wp skip _ _ _ => apply wp_skip
  | |- wp (match ?x with _ => _ end) _ _ _ => destruct x eqn:?
  end.
Ltac wp_run := unfold_handlers; repeat wp_step.

(** Running a trace: the effects of its events, in order. *)
Lemma run_cons e es s :
  run (e :: es) s =
  (next (run es (next (handle e s))),
   effects (handle e s) ++ effects (run es (next (handle e s)))).
Proof.
  change (run (e :: es)) with (handle e ;; run es).
  rewrite (surjective_pairing ((handle e ;; run es) s)).
  fold (next ((handle e ;; run es) s)) (effects ((handle e ;; run es) s)).
  now rewrite seq_next, seq_effects.
Qed.

Lemma wp_run_trace (I : State -> Prop) (E : Effect -> Prop) (ok : Event -> Prop) :
  (forall e s, ok e -> I s -> wp (handle e) I E s) ->
  forall es s, Forall ok es -> I s -> wp (run es) I E s.
Proof.
  intros Hstep es. induction es as [|e es IH]; intros s Hok Hs.
  - now apply wp_skip.
  - inversion Hok as [|? ? He Hes]; subst.
    change (run (e :: es)) with (handle e ;; run es).
    apply wp_seq. eapply wp_mono; [|apply Hstep; assumption].
    intros s' Hs'. now apply IH.
Qed.

(** * The published messages are planar *)

Lemma planar_twist l a : planar (twist l a).
Proof. repeat split. Qed.

Lemma handle_planar e s :
  wp (handle e) (fun _ => True) (publishing (fun _ m => planar m)) s.
Proof.
  destruct e; try destruct cb; wp_run; cbn; repeat split; auto.
Qed.

(** * State invariants *)

(** Close the goals symbolic execution leaves: facts about hooks of an
    updated state. *)
Ltac hooks :=
  unfold connected_has_topic, never_connected, topic_is_twist,
    silent, publishing in *;
  cbn in *; intuition (try congruence; try discriminate).

Lemma handle_connected_has_topic e s :
  connected_has_topic s ->
  wp (handle e) connected_has_topic (fun _ => True) s.
Proof.
  intros H. destruct e; try destruct cb; wp_run; hooks.
Qed.

Lemma handle_never_connected e s :
  is_connection e = false ->
  never_connected s ->
  wp (handle e) never_connected silent s.
Proof.
  intros He H. destruct e; try discriminate; try destruct cb; wp_run; hooks.
Qed.

Lemma handle_topic_is_twist e s :
  topic_is_twist s ->
  wp (handle e) topic_is_twist
     (publishing (fun t _ => messageType t = "geometry_msgs/Twist")) s.
Proof.
  intros H. destruct e; try destruct cb; wp_run; hooks.
  all: try (match goal with
            | H : Some _ = Some _ |- _ => injection H as <-
            end; reflexivity).
  all: auto.
Qed.

Lemma range_zero : within (- one) one zero.
Proof. split; reflexivity. Qed.

Lemma noAxes_in_range : axes_in_range noAxes.
Proof. split; apply range_zero. Qed.

Lemma direction_axes_in_range d : axes_in_range (direction_axes d).
Proof. destruct d; repeat split. Qed.

Lemma on_move_in_range vx vy s :
  is_nan vx = false -> is_nan vy = false ->
  axes_in_range (axesRef (next (on_move vx vy s))).
Proof.
  intros Hx Hy.
  change (axesRef (next (on_move vx vy s)))
    with {| ax := clamp vx (- one) one; ay := - clamp vy (- one) one |}.
  split; cbn [ax ay].
  - now apply clamp_within.
  - apply within_neg. now apply clamp_within.
Qed.

Lemma handle_axes_in_range e s :
  nan_move e = false ->
  axes_in_range (axesRef s) ->
  wp (handle e) (fun s' => axes_in_range (axesRef s')) (fun _ => True) s.
Proof.
  intros He H.
  destruct e; try destruct cb;
    try solve [wp_run; cbn;
               auto using noAxes_in_range, direction_axes_in_range].
  cbn in He. apply orb_false_iff in He as [Hx Hy].
  split; [now apply on_move_in_range | constructor].
Qed.

(** * Reachable states *)

Lemma Forall_publishing P es t m :
  Forall (publishing P) es -> In (Publish t m) es -> P t m.
Proof.
  intros H Hin. rewrite Forall_forall in H. exact (H _ Hin).
Qed.

Lemma Forall_silent es : Forall silent es -> published es = [].
Proof.
  induction 1 as [|e es He _ IH]; [reflexivity|].
  destruct e; cbn in *; [contradiction | exact IH | exact IH].
Qed.

Section Reachable.

Variable hostname : string.

Lemma reachable_run es s :
  reachable hostname s -> reachable hostname (next (run es s)).
Proof.
  revert s. induction es as [|e es IH]; intros s Hs; [exact Hs|].
  rewrite run_cons. cbn [next fst]. apply IH. now constructor.
Qed.

Lemma reachable_trace es : reachable hostname (next (run es (initial hostname))).
Proof. apply reachable_run. constructor. Qed.

Lemma reachable_connected_has_topic s :
  reachable hostname s -> connected_has_topic s.
Proof.
  induction 1 as [|s e _ IH].
  - intros H. discriminate.
  - now apply handle_connected_has_topic.
Qed.

Lemma reachable_topic_is_twist s :
  reachable hostname s -> topic_is_twist s.
Proof.
  induction 1 as [|s e _ IH].
  - intros t H. discriminate.
  - now apply handle_topic_is_twist.
Qed.

End Reachable.

(** * The periodic callback *)

Lemma publishTwist_run l a s : publishTwist l a s = (s, sent s (twist l a)).
Proof. unfold publishTwist, sent, read. now destruct (cmdVelTopicRef s). Qed.

Lemma timerCallback_next s : next (timerCallback s) = s.
Proof.
  unfold timerCallback, read.
  destruct (isConnected s); cbn; [|reflexivity].
  destruct (estop s); now rewrite publishTwist_run.
Qed.

Lemma timerCallback_estop s :
  estop s = true ->
  effects (timerCallback s) = if isConnected s then sent s zeroTwist else [].
Proof.
  intros H. unfold timerCallback, read.
  destruct (isConnected s); cbn [negb]; [|reflexivity].
  rewrite H. now rewrite publishTwist_run.
Qed.

Lemma In_sent s m t m' : In (Publish t m') (sent s m) -> m' = m.
Proof.
  unfold sent. destruct (cmdVelTopicRef s); cbn; [|tauto].
  intros [H|[]]. now injection H.
Qed.

Lemma estop_tick_only_zero s t m :
  estop s = true -> In (Publish t m) (effects (timerCallback s)) -> m = zeroTwist.
Proof.
  intros H. rewrite (timerCallback_estop s H).
  destruct (isConnected s); [apply In_sent | intros []].
Qed.


(** * Stop paths *)

Lemma safeStop_run s :
  safeStop s = (set_axesRef noAxes s, sent s zeroTwist ++ repeats).
Proof.
  unfold safeStop, seq, modify, emit. rewrite publishTwist_run.
  reflexivity.
Qed.

Lemma click_estop_run s :
  click_estop s =
  (set_axesRef noAxes (set_estop true s), sent s zeroTwist ++ repeats).
Proof.
  unfold click_estop, seq, modify. now rewrite safeStop_run.
Qed.

Lemma release_run s :
  (modify (set_axesRef noAxes) ;; publishTwist zero zero) s =
  (set_axesRef noAxes s, sent s zeroTwist).
Proof. unfold seq, modify. now rewrite publishTwist_run. Qed.

Lemma scheduled_sent s m : scheduled (sent s m ++ repeats) =
  [(cb_publishTwist zero zero, 80); (cb_publishTwist zero zero, 160)].
Proof. unfold sent. now destruct (cmdVelTopicRef s). Qed.

(** * Concrete runs *)

(** The literals are the doubles nearest to their decimal values. *)
Lemma literals :
  one = ofZ 1 /\ lit_0_7 = ratio 7 10 /\
  lit_0_6 = ratio 6 10 /\ lit_1_2 = ratio 12 10.
Proof. repeat split; vm_compute; reflexivity. Qed.

Example clamp_above : clamp (ofZ 3) (- one) one = one.
Proof. reflexivity. Qed.

Example clamp_below : clamp (ofZ (-3)) (- one) one = - one.
Proof. reflexivity. Qed.

Example clamp_inside : clamp (- lit_0_7) (- one) one = - lit_0_7.
Proof. reflexivity. Qed.

Example clamp_infinity : clamp (S754_infinity false) (- one) one = one.
Proof. reflexivity. Qed.

(** Forward-left held while connected: the tick sends [0.6] forward and
    [-0.7 * 1.2] of turn. *)
Example tick_forward_left :
  published (effects (timerCallback (next (run demo_driving (initial "robot")))))
  = [(demo_topic, twist lit_0_6 ((- lit_0_7) * lit_1_2))].
Proof. vm_compute. reflexivity. Qed.

(** After the e-stop button the same tick sends the zero twist. *)
Example tick_after_estop :
  published (effects (timerCallback (next (run demo_stopped (initial "robot")))))
  = [(demo_topic, zeroTwist)].
Proof. vm_compute. reflexivity. Qed.

(** With a negative [linearMax] the bounds of the clamp are swapped and the
    tick sends [linearMax] itself, even with the axes at rest. *)
Example tick_negative_linearMax :
  published
    (effects (run [ClickConnect; RosConnection demo_ros;
                   ChangeLinearMax (- lit_0_6); Tick] (initial "robot")))
  = [(demo_topic, twist (- lit_0_6) zero)].
Proof. vm_compute. reflexivity. Qed.

(** The disconnect button nulls the topic before [safeStop] runs, so its
    zero twist is not sent. *)
Example disconnect_sends_nothing :
  published
    (effects (handle ClickDisconnect (next (run demo_driving (initial "robot")))))
  = [].
Proof. vm_compute. reflexivity. Qed.

(** * The claims *)

(** C1.  While the e-stop flag is set, a tick of the periodic callback
    publishes the zero-velocity command: in a reachable, connected state it
    publishes exactly one message, the zero twist, on the current topic;
    in any state whatever it publishes is the zero twist, whatever the axes
    reference holds; and the tick leaves the state as it was. *)
Theorem estop_tick_publishes_zero (hostname : string) (s : State) :
  reachable hostname s ->
  estop s = true ->
  (isConnected s = true ->
   exists t, cmdVelTopicRef s = Some t /\
             effects (timerCallback s) = [Publish t zeroTwist]) /\
  (forall t m, In (Publish t m) (effects (timerCallback s)) -> m = zeroTwist) /\
  (forall a t m,
      In (Publish t m) (effects (timerCallback (set_axesRef a s))) ->
      m = zeroTwist) /\
  next (timerCallback s) = s.
Proof.
  intros Hr He. repeat split.
  - intros Hc.
    destruct (cmdVelTopicRef s) as [t|] eqn:Ht.
    + exists t. split; [reflexivity|].
      rewrite (timerCallback_estop s He), Hc. unfold sent. now rewrite Ht.
    + now destruct (reachable_connected_has_topic hostname s Hr Hc).
  - intros t m. now apply estop_tick_only_zero.
  - intros a t m. now apply estop_tick_only_zero.
  - apply timerCallback_next.
Qed.

Lemma estop_tick_publishes_zero_witness :
  effects (timerCallback (next (run demo_stopped (initial "robot")))) =
  [Publish demo_topic zeroTwist].
Proof.
  destruct (estop_tick_publishes_zero "robot"
              (next (run demo_stopped (initial "robot")))
              (reachable_trace "robot" demo_stopped) eq_refl)
    as [H _].
  destruct (H eq_refl) as (t & Ht & Hpub).
  vm_compute in Ht. injection Ht as <-. exact Hpub.
Defined.

(** C2, as stated, fails for a negative maximum, which the settings form
    accepts: with [linearMax = -0.6] and the axes at rest a connected, not
    e-stopped tick publishes [linear.x = -0.6], which is neither
    [y * linearMax] nor in [[-linearMax, linearMax]].  It also fails when a
    product is NaN: after a move with [vector.x = NaN] the tick publishes
    [angular.z = NaN]. *)
Lemma tick_negative_max_not_in_range :
  isConnected (next (run demo_negative_max (initial "robot"))) = true /\
  estop (next (run demo_negative_max (initial "robot"))) = false /\
  axesRef (next (run demo_negative_max (initial "robot"))) = noAxes /\
  linearMax (next (run demo_negative_max (initial "robot"))) = - lit_0_6 /\
  effects (timerCallback (next (run demo_negative_max (initial "robot")))) =
    [Publish demo_topic (twist (- lit_0_6) zero)] /\
  eqb (- lit_0_6) (zero * (- lit_0_6)) = false /\
  ~ within (- (- lit_0_6)) (- lit_0_6) (- lit_0_6) /\
  effects (run [ClickConnect; RosConnection demo_ros; JoystickMove NaN zero;
                Tick] (initial "robot")) =
    [Publish demo_topic (twist negzero NaN)] /\
  ~ within (- lit_1_2) lit_1_2 NaN.
Proof.
  split; [reflexivity|]. split; [reflexivity|]. split; [reflexivity|].
  split; [reflexivity|]. split; [vm_compute; reflexivity|].
  split; [reflexivity|].
  split; [intros [H _]; discriminate H|].
  split; [vm_compute; reflexivity|].
  intros [H _]. discriminate H.
Qed.

(** C2, amended.  On a tick in a reachable state that is connected and not
    e-stopped, the callback reads the axes [(x, y)] and publishes one
    message whose [linear.x] is [clamp(y * linearMax, -linearMax, linearMax)]
    and whose [angular.z] is [clamp(x * angularMax, -angularMax, angularMax)].
    When the maximum is not below its negation and the product is a number,
    that value is the product brought into [[-max, max]]: it lies between
    the bounds, equals the product when the product does, and is the bound
    the product is beyond otherwise. *)
Theorem tick_publishes_scaled_axes (hostname : string) (s : State) :
  reachable hostname s ->
  isConnected s = true ->
  estop s = false ->
  let lin := clamp (ay (axesRef s) * linearMax s)
                   (- linearMax s) (linearMax s) in
  let ang := clamp (ax (axesRef s) * angularMax s)
                   (- angularMax s) (angularMax s) in
  (exists t msg,
      cmdVelTopicRef s = Some t /\
      timerCallback s = (s, [Publish t msg]) /\
      x (linear msg) = lin /\ z (angular msg) = ang) /\
  (leb (- linearMax s) (linearMax s) = true ->
   is_nan (ay (axesRef s) * linearMax s) = false ->
   brought_into (- linearMax s) (linearMax s)
     (ay (axesRef s) * linearMax s) lin) /\
  (leb (- angularMax s) (angularMax s) = true ->
   is_nan (ax (axesRef s) * angularMax s) = false ->
   brought_into (- angularMax s) (angularMax s)
     (ax (axesRef s) * angularMax s) ang).
Proof.
  intros Hr Hc He lin ang. split; [|split].
  - destruct (cmdVelTopicRef s) as [t|] eqn:Ht.
    + exists t, (twist lin ang). repeat split.
      unfold timerCallback, read. rewrite Hc. cbn [negb]. rewrite He.
      rewrite publishTwist_run. unfold sent. now rewrite Ht.
    + now destruct (reachable_connected_has_topic hostname s Hr Hc).
  - intros Hb Hn. now apply clamp_brought_into.
  - intros Hb Hn. now apply clamp_brought_into.
Qed.

Lemma tick_publishes_scaled_axes_witness :
  (exists t msg,
    cmdVelTopicRef (next (run demo_driving (initial "robot"))) = Some t /\
    timerCallback (next (run demo_driving (initial "robot"))) =
      (next (run demo_driving (initial "robot")), [Publish t msg]) /\
    x (linear msg) = lit_0_6 /\
    z (angular msg) = (- lit_0_7) * lit_1_2) /\
  within (- lit_0_6) lit_0_6 lit_0_6 /\
  within (- lit_1_2) lit_1_2 ((- lit_0_7) * lit_1_2).
Proof.
  destruct (tick_publishes_scaled_axes "robot"
              (next (run demo_driving (initial "robot")))
              (reachable_trace "robot" demo_driving) eq_refl eq_refl)
    as (H1 & H2 & H3).
  split; [exact H1|]. split.
  - exact (proj1 (H2 eq_refl eq_refl)).
  - exact (proj1 (H3 eq_refl eq_refl)).
Defined.

(** C3, as stated, fails on a NaN component, which [clamp] passes on: a
    move with vector [(0.7, NaN)] stores [y = NaN], not a value clamped to
    [[-1, 1]]. *)
Lemma move_nan_not_clamped :
  axesRef (next (handle (JoystickMove lit_0_7 NaN) (initial "robot"))) =
    {| ax := lit_0_7; ay := NaN |} /\
  ~ within (- one) one
      (ay (axesRef (next (handle (JoystickMove lit_0_7 NaN)
                                 (initial "robot"))))).
Proof.
  split; [reflexivity|].
  intros [H _]. discriminate H.
Qed.

(** C3, amended.  A joystick move event with vector [(vx, vy)] stores exactly
    [(clamp(vx, -1, 1), -clamp(vy, -1, 1))] in the axes reference, changes
    no other hook and publishes nothing.  A component that is not NaN is
    clamped to [[-1, 1]]: the stored value lies in [[-1, 1]], it is [1] for
    an input of [1] or more and [-1] for an input of [-1] or less, and an
    input already in [[-1, 1]] is stored as it came; the vertical one is
    stored with its sign flipped.  A NaN component is stored as NaN. *)
Theorem move_stores_clamped_flipped (vx vy : number) (s : State) :
  let s' := next (handle (JoystickMove vx vy) s) in
  axesRef s' = {| ax := clamp vx (- one) one;
                  ay := - clamp vy (- one) one |} /\
  s' = set_axesRef (axesRef s') s /\
  effects (handle (JoystickMove vx vy) s) = [] /\
  (within (- one) one vx -> eqb (ax (axesRef s')) vx = true) /\
  (within (- one) one vy -> eqb (ay (axesRef s')) (- vy) = true) /\
  (is_nan vx = false ->
   within (- one) one (ax (axesRef s')) /\
   (leb one vx = true -> ax (axesRef s') = one) /\
   (leb vx (- one) = true -> ax (axesRef s') = - one)) /\
  (is_nan vy = false ->
   within (- one) one (ay (axesRef s')) /\
   (leb one vy = true -> ay (axesRef s') = - one) /\
   (leb vy (- one) = true -> ay (axesRef s') = one)) /\
  (is_nan vx = true -> ax (axesRef s') = NaN) /\
  (is_nan vy = true -> ay (axesRef s') = NaN).
Proof.
  intros s'.
  assert (E : axesRef s' = {| ax := clamp vx (- one) one;
                              ay := - clamp vy (- one) one |})
    by reflexivity.
  assert (Hb : leb (- one) one = true) by reflexivity.
  split; [exact E|]. split; [reflexivity|]. split; [reflexivity|].
  rewrite E. cbn [ax ay].
  split; [intros Hw; now apply clamp_eqb|].
  split; [intros Hw; rewrite eqb_neg; now apply clamp_eqb|].
  split; [|split; [|split]].
  - intros Hx. split; [now apply clamp_within|]. split; intros H.
    + apply eqb_eq; [now apply clamp_saturates_above | reflexivity].
    + apply eqb_eq; [now apply clamp_saturates_below | reflexivity].
  - intros Hy. split; [apply within_neg; now apply clamp_within|].
    split; intros H.
    + f_equal. apply eqb_eq; [now apply clamp_saturates_above | reflexivity].
    + change one with (- (- one)) at 3. f_equal.
      apply eqb_eq; [now apply clamp_saturates_below | reflexivity].
  - intros Hx. destruct vx; try discriminate. fold NaN.
    now rewrite clamp_nan.
  - intros Hy. destruct vy; try discriminate. fold NaN.
    now rewrite clamp_nan.
Qed.

Lemma move_stores_clamped_flipped_witness :
  axesRef (next (handle (JoystickMove (ofZ 3) (ofZ (-3))) (initial "robot")))
  = {| ax := one; ay := one |} /\
  within (- one) one (clamp (ofZ 3) (- one) one) /\
  eqb (clamp lit_0_7 (- one) one) lit_0_7 = true.
Proof.
  destruct (move_stores_clamped_flipped (ofZ 3) (ofZ (-3)) (initial "robot"))
    as (H1 & _ & _ & _ & _ & H6 & _).
  destruct (move_stores_clamped_flipped lit_0_7 zero (initial "robot"))
    as (_ & _ & _ & H4 & _).
  split; [exact H1|]. split.
  - exact (proj1 (H6 eq_refl)).
  - exact (H4 (conj eq_refl eq_refl)).
Defined.

(** C4.  The e-stop button sets the e-stop flag, resets the axes reference
    to [(0, 0)], publishes the zero twist through [publishTwist] and
    schedules two more zero publishes, at 80 ms and 160 ms; whatever the
    state was, a tick or a deferred publish that follows sends nothing but
    the zero twist. *)
Theorem estop_button_forces_zero (s : State) :
  let s' := next (click_estop s) in
  estop s' = true /\
  axesRef s' = noAxes /\
  effects (click_estop s) = sent s zeroTwist ++ repeats /\
  scheduled (effects (click_estop s)) =
    [(cb_publishTwist zero zero, 80); (cb_publishTwist zero zero, 160)] /\
  (forall s2, run_callback (cb_publishTwist zero zero) s2 =
              (s2, sent s2 zeroTwist)) /\
  (forall t m, In (Publish t m) (effects (timerCallback s')) -> m = zeroTwist).
Proof.
  cbn zeta. rewrite click_estop_run. cbn [next effects fst snd].
  split; [reflexivity|]. split; [reflexivity|]. split; [reflexivity|].
  split; [apply scheduled_sent|].
  split; [intros s2; apply publishTwist_run|].
  intros t m. now apply estop_tick_only_zero.
Qed.

Lemma estop_button_forces_zero_witness :
  estop (next (click_estop (next (run demo_driving (initial "robot"))))) = true /\
  effects (click_estop (next (run demo_driving (initial "robot")))) =
    Publish demo_topic zeroTwist :: repeats.
Proof.
  destruct (estop_button_forces_zero
              (next (run demo_driving (initial "robot"))))
    as (H1 & _ & H3 & _).
  split; [exact H1|]. rewrite H3. vm_compute. reflexivity.
Defined.


(** C6.  The topic name starts as "/cmd_vel"; connecting from the initial
    state creates the topic "/cmd_vel" of type "geometry_msgs/Twist"; in
    every reachable state every published message goes to a topic of type
    "geometry_msgs/Twist" and has a linear and an angular vector of three
    components x, y, z each. *)
Theorem cmd_vel_topic (hostname : string) :
  topicName (initial hostname) = "/cmd_vel" /\
  (exists r,
      rosRef (next (connect (initial hostname))) = Some r /\
      cmdVelTopicRef
        (next (on_connection r (next (connect (initial hostname))))) =
      Some {| ros := r; name := "/cmd_vel";
              messageType := "geometry_msgs/Twist" |}) /\
  (forall s e t m,
      reachable hostname s ->
      In (Publish t m) (effects (handle e s)) ->
      messageType t = "geometry_msgs/Twist" /\
      exists lx ly lz bx by0 bz,
        m = {| linear := {| x := lx; y := ly; z := lz |};
               angular := {| x := bx; y := by0; z := bz |} |}).
Proof.
  split; [reflexivity|]. split.
  { eexists. split; reflexivity. }
  intros s e t m Hr Hin. split.
  - destruct (handle_topic_is_twist e s (reachable_topic_is_twist _ s Hr))
      as [_ HE].
    exact (Forall_publishing _ _ t m HE Hin).
  - destruct m as [[lx ly lz] [bx by0 bz]]. now exists lx, ly, lz, bx, by0, bz.
Qed.

Lemma cmd_vel_topic_witness :
  messageType demo_topic = "geometry_msgs/Twist" /\
  name demo_topic = "/cmd_vel".
Proof.
  split; [|reflexivity].
  refine (proj1 (proj2 (proj2 (cmd_vel_topic "robot"))
                   (next (run demo_driving (initial "robot")))
                   Tick demo_topic
                   (twist lit_0_6 ((- lit_0_7) * lit_1_2))
                   (reachable_trace "robot" demo_driving) _)).
  vm_compute. left. reflexivity.
Defined.

(** C8.  Whatever sequence of events runs, from whatever state, every
    message published has [linear.y], [linear.z], [angular.x] and
    [angular.y] equal to zero. *)
Theorem published_messages_planar
  (es : list Event) (s : State) (t : Topic) (m : Twist) :
  In (Publish t m) (effects (run es s)) -> planar m.
Proof.
  intros Hin.
  assert (H : wp (run es) (fun _ => True)
                 (publishing (fun _ m => planar m)) s).
  { apply (wp_run_trace (fun _ => True) _ (fun _ => True)); auto.
    - intros e s' _ _. apply handle_planar.
    - apply Forall_forall. auto. }
  destruct H as [_ HE]. exact (Forall_publishing _ _ t m HE Hin).
Qed.

Lemma published_messages_planar_witness :
  planar (twist lit_0_6 ((- lit_0_7) * lit_1_2)).
Proof.
  apply (published_messages_planar (demo_driving ++ [Tick])
           (initial "robot") demo_topic).
  vm_compute. do 3 right. left. reflexivity.
Defined.

(** C9.  Nothing is sent before a connection is established: [publishTwist]
    does nothing while the topic reference is null, a tick does nothing while
    the connected flag is false, and as long as no "connection" event has
    arrived the topic reference stays null and no event publishes. *)
Theorem nothing_sent_before_connection :
  (forall s linX angZ,
      cmdVelTopicRef s = None -> publishTwist linX angZ s = (s, [])) /\
  (forall s, isConnected s = false -> timerCallback s = (s, [])) /\
  (forall hostname es,
      forallb (fun e => negb (is_connection e)) es = true ->
      cmdVelTopicRef (next (run es (initial hostname))) = None /\
      published (effects (run es (initial hostname))) = []).
Proof.
  split; [|split].
  - intros s l a H. rewrite publishTwist_run. unfold sent. now rewrite H.
  - intros s H. unfold timerCallback, read. now rewrite H.
  - intros h es Hes.
    assert (H : wp (run es) never_connected silent (initial h)).
    { apply (wp_run_trace never_connected silent
               (fun e => is_connection e = false)).
      - intros e s He Hs. now apply handle_never_connected.
      - apply Forall_forall. intros e He.
        rewrite forallb_forall in Hes. apply Hes in He.
        now apply negb_true_iff in He.
      - split; reflexivity. }
    destruct H as [[_ Ht] HE]. split; [exact Ht | now apply Forall_silent].
Qed.

Lemma nothing_sent_before_connection_witness :
  published
    (effects (run [ClickConnect; PointerDown forward; Tick; ClickEstop;
                   Timeout (cb_publishTwist zero zero); RosClose]
                  (initial "robot"))) = [].
Proof.
  exact (proj2 (proj2 (proj2 nothing_sent_before_connection) "robot"
                  [ClickConnect; PointerDown forward; Tick; ClickEstop;
                   Timeout (cb_publishTwist zero zero); RosClose]
                  eq_refl)).
Defined.

(** Every handler either leaves the axes reference alone or stores one of
    three things: [(0, 0)], a button's vector, or the clamped and flipped
    joystick vector. *)
Lemma axes_writes e s :
  axesRef (next (handle e s)) = axesRef s \/
  axesRef (next (handle e s)) = noAxes \/
  (exists d, e = PointerDown d /\
             axesRef (next (handle e s)) = direction_axes d) \/
  (exists vx vy, e = JoystickMove vx vy /\
                 axesRef (next (handle e s)) =
                 {| ax := clamp vx (- one) one;
                    ay := - clamp vy (- one) one |}).
Proof.
  destruct e as [ | | r | | | vx vy | | | cb | v | v | v | v | | | d | d | d
                | | | ].
  6: { do 3 right. exists vx, vy. split; reflexivity. }
  15: { right; right; left. exists d. split; reflexivity. }
  all: cbn [handle].
  - left. unfold connect, disconnect, seq, modify, read, emit.
    cbn [rosRef set_cmdVelTopicRef]. now destruct (rosRef s).
  - right; left. unfold click_disconnect.
    now rewrite seq_next, safeStop_run.
  - left. reflexivity.
  - right; left. unfold on_close. now rewrite seq_next, safeStop_run.
  - right; left. unfold on_error. now rewrite seq_next, safeStop_run.
  - right; left. unfold on_end. now rewrite release_run.
  - left. now rewrite timerCallback_next.
  - left. destruct cb. cbn [run_callback]. now rewrite publishTwist_run.
  - left. reflexivity.
  - unfold change_topicName, read.
    destruct (String.eqb (topicName s) v); [now left|].
    rewrite seq_next. unfold topicName_effect, read, modify.
    cbn [next fst isConnected rosRef set_topicName].
    destruct (isConnected s); [|now left].
    destruct (rosRef s); [|now left].
    right; left. now rewrite seq_next, safeStop_run.
  - left. reflexivity.
  - left. reflexivity.
  - left. reflexivity.
  - right; left. unfold select_buttons. now rewrite seq_next, safeStop_run.
  - right; left. unfold onPointerUp. now rewrite release_run.
  - right; left. unfold onPointerLeave. now rewrite release_run.
  - right; left. unfold click_stop. now rewrite release_run.
  - right; left. now rewrite click_estop_run.
  - right; left. unfold click_estop_release.
    now rewrite seq_next, safeStop_run.
Qed.

(** C7, as stated, fails on NaN, which [Math.max] and [Math.min] pass on:
    [clamp(NaN, -1, 1)] is NaN and so not in [[-1, 1]].  It also fails to
    return a zero unchanged when the bound it meets is the other zero:
    [clamp(-0, 0, 1)] is [+0]. *)
Lemma clamp_nan_not_in_range :
  leb (- one) one = true /\
  clamp NaN (- one) one = NaN /\
  ~ within (- one) one (clamp NaN (- one) one) /\
  within zero one negzero /\
  clamp negzero zero one <> negzero.
Proof.
  split; [reflexivity|]. split; [reflexivity|]. split.
  - intros [H _]. discriminate H.
  - split; [split; reflexivity|]. discriminate.
Qed.

(** C7, amended.  For every [min <= max], [clamp(v, min, max)] is
    [Math.min(max, Math.max(min, v))]; it lies in [[min, max]] whenever [v]
    is not NaN; whenever [v] lies in [[min, max]] the result equals [v]
    under [===] and is [v] itself unless [v] is a zero; and [clamp] is
    idempotent, for every [v]. *)
Theorem clamp_spec (v lo hi : number) :
  leb lo hi = true ->
  clamp v lo hi = Math_min hi (Math_max lo v) /\
  (is_nan v = false -> within lo hi (clamp v lo hi)) /\
  (within lo hi v ->
   eqb (clamp v lo hi) v = true /\
   (is_zero v = false -> clamp v lo hi = v)) /\
  clamp (clamp v lo hi) lo hi = clamp v lo hi.
Proof.
  intros Hb. split; [reflexivity|]. split; [|split].
  - intros Hv. now apply clamp_within.
  - intros Hw. split; [now apply clamp_eqb|]. intros Hnz.
    destruct (clamp_unchanged v lo hi Hw) as [E|[Hz _]]; congruence.
  - now apply clamp_idempotent.
Qed.

Lemma clamp_spec_witness :
  within (- one) one (clamp (ofZ 3) (- one) one) /\
  clamp lit_0_7 (- one) one = lit_0_7.
Proof.
  destruct (clamp_spec (ofZ 3) (- one) one eq_refl) as (_ & H & _).
  destruct (clamp_spec lit_0_7 (- one) one eq_refl) as (_ & _ & H' & _).
  split.
  - exact (H eq_refl).
  - exact (proj2 (H' (conj eq_refl eq_refl)) eq_refl).
Defined.

(** C10, as stated, fails when the joystick widget hands the move handler a
    NaN: the handler stores it. *)
Lemma nan_move_leaves_range :
  axesRef (next (handle (JoystickMove NaN zero) (initial "robot"))) =
    {| ax := NaN; ay := negzero |} /\
  ~ axes_in_range
      (axesRef (next (handle (JoystickMove NaN zero) (initial "robot")))).
Proof.
  split; [reflexivity|].
  intros [[H _] _]. discriminate H.
Qed.

(** C10, amended.  Every write to the axes reference, by any handler, keeps
    both components within [[-1, 1]], provided the joystick move handler is
    not given NaN: a handler that changes the reference stores a value in
    range; the button handlers store only the constants 0, 0.7, -0.7, 1, -1;
    every stop path stores [(0, 0)]; and so the reference stays in range
    along every run from the initial state. *)
Theorem axes_stay_in_range :
  (forall e s,
      nan_move e = false ->
      axesRef (next (handle e s)) = axesRef s \/
      axes_in_range (axesRef (next (handle e s)))) /\
  (forall d s,
      axesRef (next (handle (PointerDown d) s)) = direction_axes d /\
      In (ax (direction_axes d)) button_constants /\
      In (ay (direction_axes d)) button_constants) /\
  (forall e s,
      stop_path e = true -> axesRef (next (handle e s)) = noAxes) /\
  (forall hostname es,
      forallb (fun e => negb (nan_move e)) es = true ->
      axes_in_range (axesRef (next (run es (initial hostname))))).
Proof.
  split; [|split; [|split]].
  - intros e s He.
    destruct (axes_writes e s)
      as [H|[H|[(d & _ & H)|(vx & vy & -> & H)]]]; [now left|right..].
    + rewrite H. apply noAxes_in_range.
    + rewrite H. apply direction_axes_in_range.
    + cbn in He. apply orb_false_iff in He as [Hx Hy].
      now apply on_move_in_range.
  - intros d s. split; [reflexivity|].
    destruct d; unfold button_constants; cbn [direction_axes ax ay In]; auto 10.
  - intros e s He.
    destruct e; try discriminate He; cbn [handle].
    + unfold click_disconnect. now rewrite seq_next, safeStop_run.
    + unfold on_close. now rewrite seq_next, safeStop_run.
    + unfold on_error. now rewrite seq_next, safeStop_run.
    + unfold on_end. now rewrite release_run.
    + unfold select_buttons. now rewrite seq_next, safeStop_run.
    + unfold onPointerUp. now rewrite release_run.
    + unfold onPointerLeave. now rewrite release_run.
    + unfold click_stop. now rewrite release_run.
    + now rewrite click_estop_run.
    + unfold click_estop_release. now rewrite seq_next, safeStop_run.
  - intros h es Hes.
    assert (H : wp (run es) (fun s' => axes_in_range (axesRef s'))
                   (fun _ => True) (initial h)).
    { apply (wp_run_trace _ _ (fun e => nan_move e = false)).
      - intros e s He Hs. now apply handle_axes_in_range.
      - apply Forall_forall. intros e He.
        rewrite forallb_forall in Hes. apply Hes in He.
        now apply negb_true_iff in He.
      - apply noAxes_in_range. }
    exact (proj1 H).
Qed.

Lemma axes_stay_in_range_witness :
  axes_in_range
    (axesRef (next (handle (JoystickMove (ofZ 3) (- lit_0_7))
                           (initial "robot")))) /\
  axes_in_range
    (axesRef (next (run (demo_driving ++ [JoystickMove (ofZ 3) lit_0_6])
                        (initial "robot")))).
Proof.
  destruct axes_stay_in_range as (H1 & _ & _ & H4). split.
  - destruct (H1 (JoystickMove (ofZ 3) (- lit_0_7)) (initial "robot")
                eq_refl) as [H|H]; [|exact H].
    discriminate H.
  - exact (H4 "robot" (demo_driving ++ [JoystickMove (ofZ 3) lit_0_6])
              eq_refl).
Defined.

(** * Further properties of the handlers *)

Lemma handle_zero_only e s :
  timer_event e = false ->
  wp (handle e) (fun _ => True) (publishing (fun _ m => m = zeroTwist)) s.
Proof.
  intros He. destruct e; try discriminate; wp_run; hooks.
Qed.

Lemma timerCallback_run s :
  timerCallback s =
  (s, if isConnected s
      then if estop s
           then sent s zeroTwist
           else sent s (twist (clamp (ay (axesRef s) * linearMax s)
                                     (- linearMax s) (linearMax s))
                              (clamp (ax (axesRef s) * angularMax s)
                                     (- angularMax s) (angularMax s)))
      else []).
Proof.
  unfold timerCallback, read.
  destruct (isConnected s); cbn [negb]; [|reflexivity].
  destruct (estop s); now rewrite publishTwist_run.
Qed.

(** X1.  A message that is not the zero twist comes from one place only:
    the tick of a connected, not e-stopped component, which sends the scaled
    and clamped axes.  Every other handler publishes the zero twist or
    nothing; a deferred callback publishes what it was created with. *)
Theorem nonzero_only_from_tick e s t m :
  In (Publish t m) (effects (handle e s)) ->
  m = zeroTwist \/
  (e = Tick /\ isConnected s = true /\ estop s = false /\
   m = twist (clamp (ay (axesRef s) * linearMax s)
                    (- linearMax s) (linearMax s))
             (clamp (ax (axesRef s) * angularMax s)
                    (- angularMax s) (angularMax s))) \/
  (exists l a, e = Timeout (cb_publishTwist l a) /\ m = twist l a).
Proof.
  intros Hin. destruct (timer_event e) eqn:He.
  - destruct e; try discriminate.
    + cbn [handle] in Hin. rewrite timerCallback_run in Hin.
      cbn [effects snd] in Hin.
      destruct (isConnected s); [|contradiction].
      destruct (estop s); apply In_sent in Hin; auto.
      right; left. auto.
    + destruct cb as [l a]. cbn [handle run_callback] in Hin.
      rewrite publishTwist_run in Hin. apply In_sent in Hin.
      right; right. now exists l, a.
  - left. destruct (handle_zero_only e s He) as [_ HE].
    exact (Forall_publishing _ _ t m HE Hin).
Qed.

Lemma nonzero_only_from_tick_witness :
  twist lit_0_6 ((- lit_0_7) * lit_1_2) <> zeroTwist /\
  isConnected (next (run demo_driving (initial "robot"))) = true.
Proof.
  split; [discriminate|].
  destruct (nonzero_only_from_tick Tick
              (next (run demo_driving (initial "robot")))
              demo_topic (twist lit_0_6 ((- lit_0_7) * lit_1_2)))
    as [H|[(_ & H & _)|(l & a & H & _)]].
  - vm_compute. left. reflexivity.
  - discriminate H.
  - exact H.
  - discriminate H.
Defined.

Lemma handle_repeats e s :
  wp (handle e) (fun _ => True) safeStop_repeat s.
Proof.
  destruct e; try destruct cb; wp_run; cbn; auto.
Qed.

(** X2.  Whatever events run, every timeout the component sets is a
    [publishTwist(0, 0)] due in 80 or 160 ms: only [safeStop] schedules. *)
Theorem only_safeStop_schedules es s cb ms :
  In (SetTimeout cb ms) (effects (run es s)) ->
  cb = cb_publishTwist zero zero /\ (ms = 80 \/ ms = 160).
Proof.
  intros Hin.
  assert (H : wp (run es) (fun _ => True) safeStop_repeat s).
  { apply (wp_run_trace (fun _ => True) _ (fun _ => True)); auto.
    - intros e s' _ _. apply handle_repeats.
    - apply Forall_forall. auto. }
  destruct H as [_ HE]. rewrite Forall_forall in HE.
  exact (HE _ Hin).
Qed.

Lemma only_safeStop_schedules_witness :
  cb_publishTwist zero zero = cb_publishTwist zero zero /\ (160 = 80 \/ 160 = 160).
Proof.
  apply (only_safeStop_schedules demo_stopped (initial "robot")).
  vm_compute. auto 10.
Defined.

Lemma handle_estop_latched e s :
  estop s = true -> is_release e = false -> safeStop_timeout e ->
  wp (handle e) (fun s' => estop s' = true)
     (publishing (fun _ m => m = zeroTwist)) s.
Proof.
  intros Hs He Ht.
  destruct e; try discriminate; try destruct cb; wp_run; hooks.
  - injection Ht as -> ->. reflexivity.
Qed.

(** X3.  The e-stop latches: once set, and until the release button is
    pressed, the flag stays set and every message published, by any handler
    and by the deferred repeats of [safeStop], is the zero twist. *)
Theorem estop_latched es s :
  estop s = true ->
  Forall (fun e => is_release e = false /\ safeStop_timeout e) es ->
  estop (next (run es s)) = true /\
  forall t m, In (Publish t m) (effects (run es s)) -> m = zeroTwist.
Proof.
  intros Hs Hes.
  assert (H : wp (run es) (fun s' => estop s' = true)
                 (publishing (fun _ m => m = zeroTwist)) s).
  { apply (wp_run_trace _ _
             (fun e => is_release e = false /\ safeStop_timeout e)); auto.
    intros e s' [He Ht] Hs'. now apply handle_estop_latched. }
  destruct H as [H1 HE]. split; [exact H1|].
  intros t m Hin. exact (Forall_publishing _ _ t m HE Hin).
Qed.

Lemma estop_latched_witness :
  estop (next (run [JoystickMove one one; PointerDown forward; Tick;
                    Timeout (cb_publishTwist zero zero); RosClose; Tick]
                   (next (run demo_stopped (initial "robot"))))) = true.
Proof.
  refine (proj1 (estop_latched
                   [JoystickMove one one; PointerDown forward; Tick;
                    Timeout (cb_publishTwist zero zero); RosClose; Tick]
                   (next (run demo_stopped (initial "robot"))) eq_refl _)).
  repeat constructor.
Defined.

Lemma handle_reset_silent e s :
  e = ClickDisconnect \/ e = ClickConnect ->
  wp (handle e) never_connected silent s.
Proof.
  intros [-> | ->]; wp_run; hooks.
Qed.

(** X4.  The disconnect button (and [connect], which disconnects first)
    nulls the topic before anything is published: its own [safeStop] sends
    nothing, and nothing at all is published afterwards until a "connection"
    event arrives. *)
Theorem disconnect_sends_no_stop e es s :
  e = ClickDisconnect \/ e = ClickConnect ->
  forallb (fun e' => negb (is_connection e')) es = true ->
  published (effects (run (e :: es) s)) = [] /\
  cmdVelTopicRef (next (run (e :: es) s)) = None.
Proof.
  intros He Hes.
  assert (H : wp (run (e :: es)) never_connected silent s).
  { change (run (e :: es)) with (handle e ;; run es). apply wp_seq.
    eapply wp_mono; [|now apply handle_reset_silent].
    intros s' Hs'.
    apply (wp_run_trace never_connected silent
             (fun e' => is_connection e' = false)); auto.
    - intros e' s'' He' Hs''. now apply handle_never_connected.
    - apply Forall_forall. intros e' Hin.
      rewrite forallb_forall in Hes. apply Hes in Hin.
      now apply negb_true_iff in Hin. }
  destruct H as [[_ Ht] HE]. split; [now apply Forall_silent | exact Ht].
Qed.

Lemma disconnect_sends_no_stop_witness :
  published
    (effects (run [ClickDisconnect; Timeout (cb_publishTwist zero zero);
                   ClickStop; Tick]
                  (next (run demo_driving (initial "robot"))))) = [].
Proof.
  exact (proj1 (disconnect_sends_no_stop ClickDisconnect
                  [Timeout (cb_publishTwist zero zero); ClickStop; Tick]
                  (next (run demo_driving (initial "robot")))
                  (or_introl eq_refl) eq_refl)).
Defined.

Lemma In_sent_topic s m t m' :
  In (Publish t m') (sent s m) -> cmdVelTopicRef s = Some t.
Proof.
  unfold sent. destruct (cmdVelTopicRef s); cbn; [|tauto].
  intros [H|[]]. now injection H as -> _.
Qed.

(** X5.  A "close" or "error" event from rosbridge leaves the topic in
    place: its [safeStop] publishes the zero twist on that topic and the
    connected flag is cleared.  A tick that follows publishes on that topic
    only: one message if its callback still holds the old, set flag (the
    component has not rendered again), nothing once it holds the cleared
    one.  The deferred repeats still publish on the same topic. *)
Theorem close_leaves_topic e s t :
  e = RosClose \/ e = RosError ->
  cmdVelTopicRef s = Some t ->
  published (effects (handle e s)) = [(t, zeroTwist)] /\
  isConnected (next (handle e s)) = false /\
  cmdVelTopicRef (next (handle e s)) = Some t /\
  (forall seen t' m,
      In (Publish t' m)
         (effects (timerCallback (set_isConnected seen (next (handle e s))))) ->
      t' = t) /\
  (exists m,
      effects (timerCallback (set_isConnected true (next (handle e s)))) =
      [Publish t m]) /\
  effects (timerCallback (set_isConnected false (next (handle e s)))) = [] /\
  effects (handle (Timeout (cb_publishTwist zero zero)) (next (handle e s)))
  = [Publish t zeroTwist].
Proof.
  intros He Ht.
  assert (E : handle e s =
              (set_axesRef noAxes (set_isConnected false s),
               Publish t zeroTwist :: repeats)).
  { destruct He as [-> | ->]; cbn [handle]; unfold on_close, on_error, seq, modify;
      rewrite safeStop_run; unfold sent; cbn; now rewrite Ht. }
  rewrite E. cbn [next effects fst snd published repeats].
  split; [reflexivity|]. split; [reflexivity|]. split; [exact Ht|].
  split; [|split; [|split]].
  - intros seen t' m Hin. rewrite timerCallback_run in Hin.
    cbn [effects snd isConnected set_isConnected] in Hin.
    destruct seen; [|contradiction].
    assert (Hs : forall m0,
               In (Publish t' m)
                  (sent (set_isConnected true
                           (set_axesRef noAxes (set_isConnected false s)))
                        m0) -> t' = t).
    { intros m0 H. apply In_sent_topic in H. cbn in H. congruence. }
    destruct (estop _); now apply Hs in Hin.
  - rewrite timerCallback_run.
    cbn [effects snd isConnected set_isConnected]. unfold sent.
    cbn [cmdVelTopicRef set_isConnected set_axesRef]. rewrite Ht.
    destruct (estop _); eexists; reflexivity.
  - rewrite timerCallback_run. reflexivity.
  - cbn [handle run_callback]. rewrite publishTwist_run. unfold sent. cbn.
    now rewrite Ht.
Qed.

Lemma close_leaves_topic_witness :
  published (effects (handle RosClose (next (run demo_driving (initial "robot")))))
  = [(demo_topic, zeroTwist)].
Proof.
  exact (proj1 (close_leaves_topic RosClose
                  (next (run demo_driving (initial "robot"))) demo_topic
                  (or_introl eq_refl) eq_refl)).
Defined.

(** X6.  A topic name typed between pressing connect and the arrival of
    the "connection" event is not used: the listener creates the topic with
    the name captured when connect was pressed, while the [topicName] hook
    holds the new one. *)
Theorem name_typed_while_connecting s v :
  let r := {| url := wsUrl s; captured_topicName := topicName s |} in
  let s1 := next (handle ClickConnect s) in
  let s3 := next (run [ChangeTopicName v; RosConnection r] s1) in
  rosRef s1 = Some r /\
  topicName s3 = v /\
  cmdVelTopicRef s3 =
    Some {| ros := r; name := topicName s;
            messageType := "geometry_msgs/Twist" |}.
Proof.
  cbn zeta.
  assert (E1 : next (handle ClickConnect s) =
               set_rosRef (Some {| url := wsUrl s;
                                   captured_topicName := topicName s |})
                 (set_isConnected false
                    (set_rosRef None (set_cmdVelTopicRef None s)))
               \/ next (handle ClickConnect s) =
               set_rosRef (Some {| url := wsUrl s;
                                   captured_topicName := topicName s |})
                 (set_isConnected false (set_cmdVelTopicRef None s))).
  { cbn [handle]. unfold connect, disconnect, seq, modify, read, emit.
    cbn [rosRef set_cmdVelTopicRef]. destruct (rosRef s); cbn; auto. }
  destruct E1 as [-> | ->].
  all: split; [reflexivity|].
  all: rewrite run_cons; cbn [next fst].
  all: cbn [handle]; unfold change_topicName, read;
       cbn [topicName set_rosRef set_isConnected set_cmdVelTopicRef].
  all: destruct (String.eqb (topicName s) v) eqn:Ev;
       [apply String.eqb_eq in Ev; subst v; cbn; auto|].
  all: cbn; auto.
Qed.

(** X7.  Changing the topic name: an unchanged name does nothing; while
    not connected only the hook changes; while connected with a [Ros] object
    a new topic of that name replaces the old one, the axes are reset and
    the zero twist (with its two repeats) goes to the new topic. *)
Theorem rename_topic s v :
  handle (ChangeTopicName (topicName s)) s = (s, []) /\
  (isConnected s = false ->
   handle (ChangeTopicName v) s =
   (if String.eqb (topicName s) v then s else set_topicName v s, [])) /\
  (forall r,
      isConnected s = true -> rosRef s = Some r ->
      String.eqb (topicName s) v = false ->
      let t' := {| ros := r; name := v;
                   messageType := "geometry_msgs/Twist" |} in
      handle (ChangeTopicName v) s =
      (set_axesRef noAxes (set_cmdVelTopicRef (Some t') (set_topicName v s)),
       Publish t' zeroTwist :: repeats)).
Proof.
  split; [|split].
  - cbn [handle]. unfold change_topicName, read.
    now rewrite String.eqb_refl.
  - intros Hc. cbn [handle]. unfold change_topicName, read.
    destruct (String.eqb (topicName s) v); [reflexivity|].
    unfold seq, modify, topicName_effect, read.
    cbn [isConnected set_topicName]. now rewrite Hc.
  - intros r Hc Hr Hv t'. cbn [handle]. unfold change_topicName, read.
    rewrite Hv. unfold seq at 1. unfold modify at 1.
    unfold topicName_effect, read.
    cbn [isConnected rosRef topicName set_topicName]. rewrite Hc, Hr.
    unfold seq, modify. rewrite safeStop_run. reflexivity.
Qed.

Lemma rename_topic_witness :
  published
    (effects (handle (ChangeTopicName "/turtle1/cmd_vel")
                     (next (run demo_driving (initial "robot"))))) =
  [({| ros := demo_ros; name := "/turtle1/cmd_vel";
       messageType := "geometry_msgs/Twist" |}, zeroTwist)].
Proof.
  rewrite (proj2 (proj2 (rename_topic
                           (next (run demo_driving (initial "robot")))
                           "/turtle1/cmd_vel"))
             demo_ros eq_refl eq_refl eq_refl).
  reflexivity.
Defined.

(** X8.  At rest nothing moves: with the axes at [(0, 0)] and both maxima
    finite and not negative, a tick of a connected, not e-stopped component
    publishes a message whose [linear.x] and [angular.z] are zero. *)
Theorem tick_at_rest s t :
  isConnected s = true -> estop s = false -> cmdVelTopicRef s = Some t ->
  axesRef s = noAxes ->
  leb zero (linearMax s) = true -> is_finite (linearMax s) = true ->
  leb zero (angularMax s) = true -> is_finite (angularMax s) = true ->
  exists m,
    effects (timerCallback s) = [Publish t m] /\
    is_zero (x (linear m)) = true /\ is_zero (z (angular m)) = true.
Proof.
  intros Hc He Ht Ha Hl1 Hl2 Ha1 Ha2.
  rewrite timerCallback_run, Hc, He. cbn [effects snd]. unfold sent.
  rewrite Ht, Ha. eexists. split; [reflexivity|].
  cbn [twist linear angular x z noAxes ax ay].
  split; now apply clamp_rest.
Qed.

Lemma tick_at_rest_witness :
  exists m,
    effects (timerCallback
               (next (run (demo_driving ++ [PointerUp forward_left])
                          (initial "robot")))) =
    [Publish demo_topic m] /\
    is_zero (x (linear m)) = true /\ is_zero (z (angular m)) = true.
Proof.
  exact (tick_at_rest
           (next (run (demo_driving ++ [PointerUp forward_left])
                      (initial "robot")))
           demo_topic eq_refl eq_refl eq_refl eq_refl
           eq_refl eq_refl eq_refl eq_refl).
Defined.

(** X9.  A negative [linearMax] swaps the bounds of the clamp: whatever
    the axes hold (as long as the product is a number), the tick publishes
    [linear.x = linearMax]. *)
Theorem tick_negative_gain s t :
  isConnected s = true -> estop s = false -> cmdVelTopicRef s = Some t ->
  leb (linearMax s) zero = true -> is_zero (linearMax s) = false ->
  is_nan (ay (axesRef s) * linearMax s) = false ->
  exists m,
    effects (timerCallback s) = [Publish t m] /\
    x (linear m) = linearMax s.
Proof.
  intros Hc He Ht Hl Hz Hn.
  rewrite timerCallback_run, Hc, He. cbn [effects snd]. unfold sent.
  rewrite Ht. eexists. split; [reflexivity|].
  cbn [twist linear x]. now apply clamp_swapped.
Qed.

Lemma tick_negative_gain_witness :
  exists m,
    effects (timerCallback
               (next (run (demo_driving ++ [ChangeLinearMax (- lit_0_6)])
                          (initial "robot")))) =
    [Publish demo_topic m] /\
    x (linear m) = - lit_0_6.
Proof.
  exact (tick_negative_gain
           (next (run (demo_driving ++ [ChangeLinearMax (- lit_0_6)])
                      (initial "robot")))
           demo_topic eq_refl eq_refl eq_refl eq_refl eq_refl eq_refl).
Defined.

(** X11.  The tick is symmetric: with maxima that are not negative,
    mirroring the axes through the origin negates [linear.x] and
    [angular.z] of the published message. *)
Theorem tick_mirror s t lin ang :
  isConnected s = true -> estop s = false -> cmdVelTopicRef s = Some t ->
  leb zero (linearMax s) = true -> linearMax s <> negzero ->
  leb zero (angularMax s) = true -> angularMax s <> negzero ->
  effects (timerCallback s) = [Publish t (twist lin ang)] ->
  effects (timerCallback (set_axesRef (mirror (axesRef s)) s)) =
  [Publish t (twist (- lin) (- ang))].
Proof.
  intros Hc He Ht Hl1 Hl2 Ha1 Ha2.
  rewrite !timerCallback_run.
  cbn [isConnected estop set_axesRef axesRef linearMax angularMax
       effects snd].
  rewrite Hc, He. unfold sent. cbn [cmdVelTopicRef set_axesRef]. rewrite Ht.
  intros H. injection H as <- <-.
  unfold mirror. cbn [ax ay].
  now rewrite !mul_neg_l, !clamp_neg.
Qed.

Lemma tick_mirror_witness :
  effects (timerCallback
             (set_axesRef (mirror (direction_axes forward_left))
                          (next (run demo_driving (initial "robot"))))) =
  [Publish demo_topic (twist (- lit_0_6) (- ((- lit_0_7) * lit_1_2)))].
Proof.
  apply (tick_mirror (next (run demo_driving (initial "robot"))) demo_topic
           lit_0_6 ((- lit_0_7) * lit_1_2)).
  all: try reflexivity; try discriminate.
Defined.

(** X12.  Ticks and deferred callbacks only publish: they change no hook. *)
Theorem timers_keep_state es s :
  forallb timer_event es = true -> next (run es s) = s.
Proof.
  revert s. induction es as [|e es IH]; intros s H; [reflexivity|].
  cbn [forallb] in H. apply andb_true_iff in H as [He Hes].
  rewrite run_cons. cbn [next fst].
  assert (E : next (handle e s) = s).
  { destruct e; try discriminate; cbn [handle].
    - apply timerCallback_next.
    - destruct cb. cbn [run_callback]. now rewrite publishTwist_run. }
  rewrite E. now apply IH.
Qed.

Lemma timers_keep_state_witness :
  next (run [Tick; Timeout (cb_publishTwist zero zero); Tick]
            (next (run demo_driving (initial "robot")))) =
  next (run demo_driving (initial "robot")).
Proof.
  exact (timers_keep_state
           [Tick; Timeout (cb_publishTwist zero zero); Tick]
           (next (run demo_driving (initial "robot"))) eq_refl).
Defined.

Lemma input_event_writes_axes e s :
  input_event e = true -> next (handle e s) = set_axesRef (axesRef (next (handle e s))) s.
Proof.
  intros He. destruct s. destruct e; try discriminate; cbn [handle].
  - reflexivity.
  - unfold on_end. now rewrite release_run.
  - now rewrite timerCallback_next.
  - destruct cb. cbn [run_callback]. now rewrite publishTwist_run.
  - reflexivity.
  - unfold onPointerUp. now rewrite release_run.
  - unfold onPointerLeave. now rewrite release_run.
  - unfold click_stop. now rewrite release_run.
Qed.

Lemma input_events_write_axes es s :
  forallb input_event es = true ->
  next (run es s) = set_axesRef (axesRef (next (run es s))) s.
Proof.
  revert s. induction es as [|e es IH]; intros s H.
  - now destruct s.
  - cbn [forallb] in H. apply andb_true_iff in H as [He Hes].
    rewrite run_cons. cbn [next fst].
    rewrite (IH _ Hes). rewrite (input_event_writes_axes e s He) at 2.
    reflexivity.
Qed.

(** X13.  E-stop and release: whatever the joystick, the button grid and
    the timers do in between, pressing e-stop and then release leaves every
    hook as it was, except that the axes are [(0, 0)]. *)
Theorem estop_release_round_trip es s :
  estop s = false ->
  forallb input_event es = true ->
  next (run (ClickEstop :: es ++ [ClickEstopRelease]) s) =
  set_axesRef noAxes s.
Proof.
  intros Hs Hes.
  rewrite run_cons. cbn [next fst handle]. rewrite click_estop_run.
  cbn [next fst].
  assert (Happ : forall l1 l2 s0,
             next (run (l1 ++ l2) s0) = next (run l2 (next (run l1 s0)))).
  { induction l1 as [|e l1 IH]; intros l2 s0; [reflexivity|].
    cbn [app]. rewrite !run_cons. cbn [next fst]. apply IH. }
  rewrite Happ, (input_events_write_axes es _ Hes).
  rewrite run_cons. cbn [next fst handle run skip].
  unfold click_estop_release, seq, modify. rewrite safeStop_run.
  destruct s. cbn in *. now subst.
Qed.

Lemma estop_release_round_trip_witness :
  next (run [ClickEstop; JoystickMove one one; PointerDown backward; Tick;
             ClickEstopRelease] (initial "robot")) = initial "robot".
Proof.
  exact (estop_release_round_trip
           [JoystickMove one one; PointerDown backward; Tick]
           (initial "robot") eq_refl eq_refl).
Defined.

Lemma isConnected_after e s :
  isConnected (next (handle e s)) =
  match e with
  | RosConnection _ => true
  | ClickConnect | ClickDisconnect | RosClose | RosError => false
  | _ => isConnected s
  end.
Proof.
  destruct e; cbn [handle]; try reflexivity.
  all: try (destruct cb; cbn [run_callback]).
  all: unfold click_disconnect, on_close, on_error, on_end, select_buttons,
         onPointerUp, onPointerLeave, click_stop, click_estop_release.
  all: rewrite ?seq_next, ?safeStop_run, ?release_run, ?click_estop_run,
         ?timerCallback_next, ?publishTwist_run; try reflexivity.
  - unfold connect, disconnect, seq, modify, read, emit.
    cbn [rosRef set_cmdVelTopicRef]. now destruct (rosRef s).
  - unfold disconnect, seq, modify, read, emit.
    cbn [rosRef set_cmdVelTopicRef]. now destruct (rosRef s).
  - unfold change_topicName, read.
    match goal with
    | |- context [String.eqb (topicName s) ?w] =>
        destruct (String.eqb (topicName s) w); [reflexivity|]
    end.
    rewrite seq_next. unfold topicName_effect, read, modify.
    cbn [next fst isConnected rosRef set_topicName].
    destruct (isConnected s) eqn:Hc; [|exact Hc].
    destruct (rosRef s); [|exact Hc].
    rewrite seq_next, safeStop_run. exact Hc.
Qed.

Lemma status_tracks_connection_from es s st :
  (isConnected s = true <-> st = "Bağlandı") ->
  (isConnected (next (run es s)) = true <-> statusText_run es st = "Bağlandı").
Proof.
  revert s st. induction es as [|e es IH]; intros s st H; [exact H|].
  rewrite run_cons. cbn [next fst statusText_run]. apply IH.
  rewrite isConnected_after.
  destruct e; cbn [statusText_after]; try exact H;
    unfold connect_status, disconnect_status;
    split; intros E; try discriminate E; reflexivity.
Qed.

(** X14.  The status line reads "Bağlandı" exactly when the connected
    flag is set, along every run from the initial state. *)
Theorem status_tracks_connection hostname es :
  isConnected (next (run es (initial hostname))) = true <->
  statusText_run es initialStatus = "Bağlandı".
Proof.
  apply status_tracks_connection_from. split; discriminate.
Qed.

(** X15.  The side of the joystick before scaling is never below one
    pixel, and is 1, the width or the height of the zone, when both are
    numbers; a NaN width or height makes the size NaN, since
    [Math.max(1, NaN)] is NaN. *)
Theorem joystick_side_at_least_one width height :
  (is_nan width = false -> is_nan height = false ->
   leb one (joystick_side width height) = true /\
   (joystick_side width height = one \/
    joystick_side width height = width \/
    joystick_side width height = height)) /\
  (is_nan width = true \/ is_nan height = true ->
   joystick_size width height = NaN).
Proof.
  unfold joystick_size, joystick_side. cbn zeta. split.
  - intros Hw Hh.
    assert (H1 : is_nan one = false) by reflexivity.
    assert (Lw : leb one (Math_max one width) = true /\
                 (Math_max one width = one \/ Math_max one width = width)).
    { destruct (Math_max_cases one width H1 Hw) as [[-> _]|[-> H]].
      - auto.
      - split; [now apply cmp_Lt_leb | auto]. }
    assert (Lh : leb one (Math_max one height) = true /\
                 (Math_max one height = one \/ Math_max one height = height)).
    { destruct (Math_max_cases one height H1 Hh) as [[-> _]|[-> H]].
      - auto.
      - split; [now apply cmp_Lt_leb | auto]. }
    destruct Lw as [Lw Ew], Lh as [Lh Eh].
    destruct (Math_min_cases (Math_max one width) (Math_max one height))
      as [[-> _]|[-> _]].
    + now apply Math_max_not_nan.
    + now apply Math_max_not_nan.
    + split; [exact Lw|]. destruct Ew as [->| ->]; auto.
    + split; [exact Lh|]. destruct Eh as [->| ->]; auto.
  - intros [H|H].
    + destruct width; try discriminate. fold NaN.
      rewrite Math_max_nan_r. reflexivity.
    + destruct height; try discriminate. fold NaN.
      rewrite Math_max_nan_r, Math_min_nan_r. reflexivity.
Qed.

Lemma joystick_side_at_least_one_witness :
  leb one (joystick_side zero (ofZ 300)) = true /\
  joystick_size NaN (ofZ 300) = NaN.
Proof.
  destruct (joystick_side_at_least_one zero (ofZ 300)) as [H _].
  destruct (joystick_side_at_least_one NaN (ofZ 300)) as [_ H'].
  split; [exact (proj1 (H eq_refl eq_refl)) | exact (H' (or_introl eq_refl))].
Defined.

(** X16.  A NaN in the joystick vector reaches the robot: after a move
    event with [vector.x = NaN] the next tick of a connected, not e-stopped
    component publishes [angular.z = NaN]. *)
Theorem nan_move_is_published s t vy :
  isConnected s = true -> estop s = false -> cmdVelTopicRef s = Some t ->
  exists lin,
    effects (run [JoystickMove NaN vy; Tick] s) = [Publish t (twist lin NaN)].
Proof.
  intros Hc He Ht. rewrite !run_cons.
  cbn [effects snd next fst handle run skip].
  change (on_move NaN vy s)
    with (set_axesRef {| ax := clamp NaN (- one) one;
                         ay := - clamp vy (- one) one |} s, @nil Effect).
  rewrite timerCallback_run. unfold next, effects.
  cbn [fst snd app isConnected estop set_axesRef axesRef linearMax
       angularMax ax ay].
  rewrite Hc, He. unfold sent. cbn [cmdVelTopicRef set_axesRef]. rewrite Ht.
  eexists. unfold mul. cbn [SFmul]. fold NaN. rewrite !clamp_nan. reflexivity.
Qed.

Lemma nan_move_is_published_witness :
  exists lin,
    effects (run [JoystickMove NaN zero; Tick]
                 (next (run demo_driving (initial "robot")))) =
    [Publish demo_topic (twist lin NaN)].
Proof.
  exact (nan_move_is_published
           (next (run demo_driving (initial "robot"))) demo_topic zero
           eq_refl eq_refl eq_refl).
Defined.

Lemma In_repeats t m : ~ In (Publish t m) repeats.
Proof. cbn. intros [H|[H|[]]]; discriminate. Qed.

Lemma In_sent_repeats s m t m' :
  In (Publish t m') (sent s m ++ repeats) -> cmdVelTopicRef s = Some t.
Proof.
  intros H. apply in_app_or in H as [H|H].
  - now apply In_sent_topic in H.
  - now apply In_repeats in H.
Qed.

(** X17.  Every message a handler publishes goes to the topic that the
    topic reference holds when the handler returns; after a rename nothing
    goes to the old topic. *)
Theorem published_on_current_topic e s t m :
  In (Publish t m) (effects (handle e s)) ->
  cmdVelTopicRef (next (handle e s)) = Some t.
Proof.
  destruct e; cbn [handle]; try (cbn; tauto).
  - unfold connect, disconnect, seq, modify, read, emit.
    cbn [rosRef set_cmdVelTopicRef]. destruct (rosRef s); cbn; intuition discriminate.
  - unfold click_disconnect. rewrite seq_next, seq_effects, safeStop_run.
    cbn [next effects fst snd]. intros H. apply in_app_or in H as [H|H].
    + exfalso. revert H. unfold disconnect, seq, modify, read, emit.
      cbn [rosRef set_cmdVelTopicRef]. destruct (rosRef s); cbn; intuition discriminate.
    + now apply In_sent_repeats in H.
  - unfold on_close. rewrite seq_next, seq_effects, safeStop_run.
    cbn. intros H. now apply In_sent_repeats in H.
  - unfold on_error. rewrite seq_next, seq_effects, safeStop_run.
    cbn. intros H. now apply In_sent_repeats in H.
  - unfold on_end. rewrite release_run. cbn. apply In_sent_topic.
  - rewrite timerCallback_run. cbn [next effects fst snd].
    destruct (isConnected s); [|intros []].
    destruct (estop s); apply In_sent_topic.
  - destruct cb. cbn [run_callback]. rewrite publishTwist_run.
    cbn [next effects fst snd]. apply In_sent_topic.
  - unfold change_topicName, read.
    destruct (String.eqb (topicName s) v); [intros []|].
    rewrite seq_next, seq_effects. unfold topicName_effect, read.
    cbn [modify next effects fst snd isConnected rosRef set_topicName app].
    destruct (isConnected s); [|intros []].
    destruct (rosRef s); [|intros []].
    rewrite seq_next, seq_effects, safeStop_run.
    cbn [modify next effects fst snd app]. intros H.
    now apply In_sent_repeats in H.
  - unfold select_buttons. rewrite seq_next, seq_effects, safeStop_run.
    cbn. intros H. now apply In_sent_repeats in H.
  - unfold onPointerUp. rewrite release_run. cbn. apply In_sent_topic.
  - unfold onPointerLeave. rewrite release_run. cbn. apply In_sent_topic.
  - unfold click_stop. rewrite release_run. cbn. apply In_sent_topic.
  - rewrite click_estop_run. cbn. intros H. now apply In_sent_repeats in H.
  - unfold click_estop_release. rewrite seq_next, seq_effects, safeStop_run.
    cbn. intros H. now apply In_sent_repeats in H.
Qed.

Lemma published_on_current_topic_witness :
  cmdVelTopicRef
    (next (handle (ChangeTopicName "/turtle1/cmd_vel")
                  (next (run demo_driving (initial "robot"))))) =
  Some {| ros := demo_ros; name := "/turtle1/cmd_vel";
          messageType := "geometry_msgs/Twist" |}.
Proof.
  apply (published_on_current_topic (ChangeTopicName "/turtle1/cmd_vel")
           (next (run demo_driving (initial "robot"))) _ zeroTwist).
  vm_compute. left. reflexivity.
Defined.

Lemma clamp_mono_witness :
  leb (clamp lit_0_6 (- one) one) (clamp (ofZ 3) (- one) one) = true.
Proof.
  exact (clamp_mono lit_0_6 (ofZ 3) (- one) one eq_refl eq_refl eq_refl).
Defined.

Lemma name_typed_while_connecting_witness :
  topicName
    (next (run [ClickConnect; ChangeTopicName "/turtle1/cmd_vel";
                RosConnection demo_ros] (initial "robot"))) =
    "/turtle1/cmd_vel" /\
  cmdVelTopicRef
    (next (run [ClickConnect; ChangeTopicName "/turtle1/cmd_vel";
                RosConnection demo_ros] (initial "robot"))) =
    Some demo_topic.
Proof.
  destruct (name_typed_while_connecting (initial "robot") "/turtle1/cmd_vel")
    as (_ & H2 & H3).
  split; [exact H2 | exact H3].
Defined.

Lemma status_tracks_connection_witness :
  statusText_run demo_driving initialStatus = "Bağlandı" /\
  isConnected (next (run (demo_driving ++ [RosClose]) (initial "robot")))
  <> true.
Proof.
  split.
  - exact (proj1 (status_tracks_connection "robot" demo_driving) eq_refl).
  - intros H.
    apply (proj1 (status_tracks_connection "robot"
                    (demo_driving ++ [RosClose]))) in H.
    discriminate H.
Defined.
